(** * InputGraphicsSoundMenu: a shallow embedding of
      [input_graphics_sound_menu.hpp] and the properties of its menu logic.

    The header defines one class, [InputGraphicsSoundMenu].  Its observable
    state (the two public fields, and the services it holds references to:
    configuration store, sound system, logger, window, standard output) is
    gathered in the record [World]; member functions and the closures stored
    in the widgets are computations in a state-and-exception monad over
    [World].  Rectangles, colours and the depth bias of a screen take no part
    in any control decision of the header and are left out of the widgets. *)

From Stdlib Require Import ZArith QArith Qabs Ascii String List Bool Lia.
From Stdlib Require Import SpecFloat.
From stdpp Require Import base option list strings gmap.

Local Open Scope Z_scope.
Local Open Scope string_scope.
Local Open Scope list_scope.

(** ** The closed enumeration of screens *)

Inductive UIState : Type :=
  | MAIN_MENU
  | SETTINGS_MENU
  | PROGRAM_SETTINGS
  | INPUT_SETTINGS
  | SOUND_SETTINGS
  | GRAPHICS_SETTINGS
  | ADVANCED_SETTINGS
  | ABOUT.

#[global] Instance UIState_eq_dec : EqDecision UIState.
Proof. solve_decision. Defined.

(** [get_ui_dependencies]: the switch of the source, case by case.  The
    trailing [return {}] after the switch is unreachable for a value of the
    enumeration. *)
Definition get_ui_dependencies (ui_state : UIState) : list UIState :=
  match ui_state with
  | MAIN_MENU => []
  | SETTINGS_MENU => []
  | PROGRAM_SETTINGS => [SETTINGS_MENU]
  | INPUT_SETTINGS => [SETTINGS_MENU]
  | SOUND_SETTINGS => [SETTINGS_MENU]
  | GRAPHICS_SETTINGS => [SETTINGS_MENU]
  | ADVANCED_SETTINGS => [SETTINGS_MENU]
  | ABOUT => []
  end.

(** The first loop of [process_and_queue_render_menu]: the vector starts as
    [{curr_state}] and every dependency is pushed at its back. *)
Definition push_back {A} (v : list A) (x : A) : list A := v ++ [x].

Definition uis_to_render (curr : UIState) : list UIState :=
  fold_left push_back (get_ui_dependencies curr) [curr].

(** ** IEEE-754 arithmetic of the pointer transform

    The source mixes [double] (the pointer position and the arithmetic of
    [get_ndc_mouse_pos]) and [float] (the components of [glm::vec2] and the
    aspect scale).  Both formats are instances of [SpecFloat], which rounds
    to nearest, ties to even. *)

Module F64.
Definition prec : Z := 53.
Definition emax : Z := 1024.
(** An [int] converted to [double]: exact for every 32-bit integer. *)
Definition of_Z (n : Z) : spec_float := binary_normalize prec emax n 0 false.
Definition mul := SFmul prec emax.
Definition div := SFdiv prec emax.
Definition sub := SFsub prec emax.
End F64.

Module F32.
Definition prec : Z := 24.
Definition emax : Z := 128.
(** An integer converted to [float]: rounded when it needs more than 24
    bits. *)
Definition of_Z (n : Z) : spec_float := binary_normalize prec emax n 0 false.
Definition mul := SFmul prec emax.
Definition div := SFdiv prec emax.
(** Conversion of a [double] to [float]: the value is rounded again, in
    the narrower format. *)
Definition of_double (x : spec_float) : spec_float :=
  match x with
  | S754_finite s m e => binary_normalize prec emax (cond_Zopp s (Zpos m)) e s
  | _ => x
  end.
End F32.

(** [glm::vec2]: two [float] components. *)
Record vec2 : Type := mk_vec2 { vx : spec_float; vy : spec_float }.

(** The exact rational value of a finite floating-point number. *)
Definition SF2Q (x : spec_float) : option Q :=
  match x with
  | S754_zero _ => Some 0%Q
  | S754_finite s m e =>
      Some (if (0 <=? e)%Z
            then inject_Z (cond_Zopp s (Zpos m) * 2 ^ e)
            else Qmake (cond_Zopp s (Zpos m)) (Z.to_pos (2 ^ (- e))))
  | _ => None
  end.

(** ** The services the menu holds references to *)

Inductive SoundType : Type := UI_HOVER | UI_CLICK.

(** The three keys the per-frame function asks about. *)
Inductive EKey : Type := BACKSPACE | ENTER | LEFT_MOUSE_BUTTON.

(** Calls into the external services, in the order they are made.  The
    services are opaque to the header: what the menu does to them is the
    sequence of its calls. *)
Inductive Call : Type :=
  | queue_sound_call (t : SoundType)
  | logger_info (msg : string)
  | logger_warn (msg : string)
  | std_cout (line : string)
  | glfwSetWindowShouldClose (value : bool)
  | window_set_resolution (resolution : string)
  | window_set_fullscreen_by_on_off (value : string)
  | window_enable_wireframe_mode
  | window_disable_wireframe_mode
  | configuration_save_to_file
  | process_and_queue_render_ui_call
      (pos : vec2) (ui : UIState) (keys : list string)
      (backspace enter lmb : bool).

(** The exceptions of the header: the [throw] of the resolution callback and
    the two exceptions of [std::stoi]. *)
Inductive exn : Type :=
  | invalid_argument (what : string)
  | out_of_range (what : string).

Record World : Type := mkWorld {
  enabled : bool;
  curr_state : UIState;
  configuration : gmap (string * string) string;
  calls : list Call
}.

Inductive outcome (A : Type) : Type :=
  | returned (a : A)
  | thrown (e : exn).
Arguments returned {A} a.
Arguments thrown {A} e.

(** State passing with exceptions: what was written before a [throw] stays
    written. *)
Definition M (A : Type) : Type := World -> outcome A * World.

Definition ret {A} (a : A) : M A := fun w => (returned a, w).

Definition bind {A B} (m : M A) (k : A -> M B) : M B :=
  fun w => match m w with
           | (returned a, w') => k a w'
           | (thrown e, w') => (thrown e, w')
           end.

Definition throw {A} (e : exn) : M A := fun w => (thrown e, w).

Declare Scope menu_scope.
Delimit Scope menu_scope with menu.
Notation "m1 ;; m2" := (bind m1 (fun _ => m2))
  (at level 100, m2 at level 200, right associativity) : menu_scope.
Notation "x <- m1 ;; m2" := (bind m1 (fun x => m2))
  (at level 100, m1 at next level, m2 at level 200, right associativity) : menu_scope.
Local Open Scope menu_scope.

Definition result {A} (m : M A) (w : World) : outcome A := fst (m w).
Definition after {A} (m : M A) (w : World) : World := snd (m w).

Definition call (c : Call) : M unit :=
  fun w => (returned tt,
            {| enabled := enabled w; curr_state := curr_state w;
               configuration := configuration w; calls := calls w ++ [c] |}).

Definition set_enabled (b : bool) : M unit :=
  fun w => (returned tt,
            {| enabled := b; curr_state := curr_state w;
               configuration := configuration w; calls := calls w |}).

Definition set_curr_state (s : UIState) : M unit :=
  fun w => (returned tt,
            {| enabled := enabled w; curr_state := s;
               configuration := configuration w; calls := calls w |}).

Definition queue_sound (t : SoundType) : M unit := call (queue_sound_call t).

(** Modelled from the spec: [Configuration::get_value], declared outside the
    header.  [get_value(section, key)] yields the optional string stored
    under the pair. *)
Definition get_value (cfg : gmap (string * string) string)
    (section key : string) : option string :=
  cfg !! (section, key).

(** Modelled from the spec: [Configuration::set_value], declared outside the
    header.  [set_value(section, key, value)] stores the value under the
    pair, replacing what was there. *)
Definition set_value (section key value : string) : M unit :=
  fun w => (returned tt,
            {| enabled := enabled w; curr_state := curr_state w;
               configuration := <[(section, key) := value]> (configuration w);
               calls := calls w |}).

(** [std::optional::value_or]. *)
Definition value_or {A} (o : option A) (d : A) : A :=
  match o with Some a => a | None => d end.

(** ** Strings: [std::string::find], [substr] and [std::stoi] *)

(** [s.find(c)]: the position of the first occurrence of [c], [None] for
    [std::string::npos]. *)
Fixpoint find (c : ascii) (s : string) : option nat :=
  match s with
  | EmptyString => None
  | String a rest =>
      if Ascii.eqb a c then Some O
      else match find c rest with
           | Some i => Some (S i)
           | None => None
           end
  end.

(** [s.substr(pos, len)] and [s.substr(pos)], for [pos <= s.size()]. *)
Definition substr (s : string) (pos len : nat) : string := String.substring pos len s.
Definition substr_from (s : string) (pos : nat) : string :=
  String.substring pos (String.length s - pos) s.

(** [isspace] in the "C" locale. *)
Definition isspace (c : ascii) : bool :=
  let n := nat_of_ascii c in
  (Nat.eqb n 32 || (Nat.leb 9 n && Nat.leb n 13))%bool.

Definition digit_value (c : ascii) : option Z :=
  let n := nat_of_ascii c in
  if (Nat.leb 48 n && Nat.leb n 57)%bool then Some (Z.of_nat n - 48) else None.

Fixpoint skip_spaces (s : string) : string :=
  match s with
  | String a rest => if isspace a then skip_spaces rest else s
  | EmptyString => s
  end.

(** The longest run of decimal digits at the head of [s], read as a number;
    [None] when [s] does not start with a digit. *)
Fixpoint digits_from (acc : Z) (seen : bool) (s : string) : option Z :=
  match s with
  | String a rest =>
      match digit_value a with
      | Some d => digits_from (10 * acc + d) true rest
      | None => if seen then Some acc else None
      end
  | EmptyString => if seen then Some acc else None
  end.

Definition INT_MIN : Z := - 2 ^ 31.
Definition INT_MAX : Z := 2 ^ 31 - 1.

(** [std::stoi(s)] (base 10): leading white space is skipped, one sign is
    accepted, then at least one digit is needed; what follows the digits is
    ignored.  No digit: [std::invalid_argument]; a value that does not fit
    [int]: [std::out_of_range]. *)
Definition stoi (s : string) : outcome Z :=
  let s1 := skip_spaces s in
  let '(negative, s2) :=
    match s1 with
    | String "-" rest => (true, rest)
    | String "+" rest => (false, rest)
    | _ => (false, s1)
    end in
  match digits_from 0 false s2 with
  | None => thrown (invalid_argument "stoi")
  | Some n =>
      let v := if negative then - n else n in
      if ((INT_MIN <=? v)%Z && (v <=? INT_MAX)%Z)%bool then returned v
      else thrown (out_of_range "stoi")
  end.

Definition lift {A} (o : outcome A) : M A := fun w => (o, w).

(** [get_index_or_default]: [std::find] then [std::distance], 0 when the
    value is not in the vector. *)
Fixpoint std_find (value : string) (vec : list string) : option nat :=
  match vec with
  | [] => None
  | x :: rest =>
      if String.eqb x value then Some O
      else match std_find value rest with
           | Some i => Some (S i)
           | None => None
           end
  end.

Definition get_index_or_default (value : string) (vec : list string) : Z :=
  match std_find value vec with
  | Some i => Z.of_nat i
  | None => 0
  end.

(** ** Widgets

    A [UI] is the sequence of the elements added to it.  The closures given
    to a widget are kept as they are: computations over [World]. *)

Inductive Element : Type :=
  | textbox (text : string)
  | clickable_textbox (on_click on_hover : M unit) (text : string)
  | input_box (on_confirm : string -> M unit) (placeholder_text : string)
  | dropdown (on_click on_hover : M unit) (dropdown_option_idx : Z)
      (options : list string)
      (dropdown_on_click dropdown_on_hover : string -> M unit)
  | colored_rectangle.

Definition UI : Type := list Element.

Definition add_textbox (ui : UI) (text : string) : UI :=
  push_back ui (textbox text).
Definition add_clickable_textbox (ui : UI) (on_click on_hover : M unit)
    (text : string) : UI :=
  push_back ui (clickable_textbox on_click on_hover text).
Definition add_input_box (ui : UI) (on_confirm : string -> M unit)
    (placeholder_text : string) : UI :=
  push_back ui (input_box on_confirm placeholder_text).
Definition add_dropdown (ui : UI) (on_click on_hover : M unit)
    (dropdown_option_idx : Z) (options : list string)
    (dropdown_on_click dropdown_on_hover : string -> M unit) : UI :=
  push_back ui (dropdown on_click on_hover dropdown_option_idx options
                  dropdown_on_click dropdown_on_hover).
Definition add_colored_rectangle (ui : UI) : UI :=
  push_back ui colored_rectangle.

(** What the render suite can trigger on an element. *)
Inductive UIEvent : Type :=
  | click
  | hover
  | confirm (contents : string)
  | dropdown_click (option : string)
  | dropdown_hover (option : string).

(** The closure of an element that an event runs; an event the element has
    no closure for runs nothing. *)
Definition fire (e : Element) (ev : UIEvent) : M unit :=
  match e, ev with
  | clickable_textbox on_click _ _, click => on_click
  | clickable_textbox _ on_hover _, hover => on_hover
  | input_box on_confirm _, confirm contents => on_confirm contents
  | dropdown on_click _ _ _ _ _, click => on_click
  | dropdown _ on_hover _ _ _ _, hover => on_hover
  | dropdown _ _ _ _ dropdown_on_click _, dropdown_click option =>
      dropdown_on_click option
  | dropdown _ _ _ _ _ dropdown_on_hover, dropdown_hover option =>
      dropdown_on_hover option
  | _, _ => ret tt
  end.

(** The click closure of the button labelled [label]. *)
Fixpoint button (label : string) (ui : UI) : option (M unit) :=
  match ui with
  | clickable_textbox on_click _ text :: rest =>
      if String.eqb text label then Some on_click else button label rest
  | _ :: rest => button label rest
  | [] => None
  end.

(** The element added right after the text box labelled [label]: the
    settings screens put a caption, then its control. *)
Fixpoint control_of (label : string) (ui : UI) : option Element :=
  match ui with
  | textbox text :: rest =>
      if String.eqb text label then head rest else control_of label rest
  | _ :: rest => control_of label rest
  | [] => None
  end.

Definition on_confirm_of (label : string) (ui : UI) : option (string -> M unit) :=
  match control_of label ui with
  | Some (input_box on_confirm _) => Some on_confirm
  | _ => None
  end.

Definition dropdown_index_of (label : string) (ui : UI) : option Z :=
  match control_of label ui with
  | Some (dropdown _ _ idx _ _ _) => Some idx
  | _ => None
  end.

Definition dropdown_options_of (label : string) (ui : UI) : option (list string) :=
  match control_of label ui with
  | Some (dropdown _ _ _ options _ _) => Some options
  | _ => None
  end.

Definition dropdown_on_click_of (label : string) (ui : UI) : option (string -> M unit) :=
  match control_of label ui with
  | Some (dropdown _ _ _ _ dropdown_on_click _) => Some dropdown_on_click
  | _ => None
  end.

(** A range-based [for] whose body may throw. *)
Fixpoint for_each {A} (l : list A) (body : A -> M unit) : M unit :=
  match l with
  | [] => ret tt
  | x :: rest => body x ;; for_each rest body
  end.

(** ** The window and the input state, as far as the menu reads them *)

Record Window : Type := mkWindow {
  glfw_window_size : Z * Z;   (* what [glfwGetWindowSize] reports *)
  width_px : Z;
  height_px : Z
}.

Record InputState : Type := mkInputState {
  mouse_position_x : spec_float;
  mouse_position_y : spec_float;
  get_keys_just_pressed_this_tick : list string;
  is_just_pressed : EKey -> bool
}.

(** The render suite decides, for one screen and one frame, which closures
    of the screen's elements run: element positions with their events. *)
Definition IUIRenderSuite : Type :=
  vec2 -> UIState -> list string -> bool -> bool -> bool ->
  World -> list (nat * UIEvent).

(** [get_ndc_mouse_pos]: [double] arithmetic ([2.0f] and the [int] sizes
    are promoted), narrowed to [float] when the [glm::vec2] is built. *)
Definition get_ndc_mouse_pos (size : Z * Z) (xpos ypos : spec_float) : vec2 :=
  let '(width, height) := size in
  {| vx := F32.of_double
             (F64.sub (F64.div (F64.mul (F64.of_Z 2) xpos) (F64.of_Z width))
                      (F64.of_Z 1));
     vy := F32.of_double
             (F64.sub (F64.of_Z 1)
                      (F64.div (F64.mul (F64.of_Z 2) ypos) (F64.of_Z height))) |}.

Definition aspect_corrected_ndc_mouse_pos (ndc_mouse_pos : vec2)
    (x_scale : spec_float) : vec2 :=
  {| vx := F32.mul (vx ndc_mouse_pos) x_scale; vy := vy ndc_mouse_pos |}.

(** The pointer position handed to every screen of a frame:
    [window.width_px / (float)window.height_px] is a [float] division. *)
Definition acnmp_of (window : Window) (input_state : InputState) : vec2 :=
  let ndc_mouse_pos :=
    get_ndc_mouse_pos (glfw_window_size window)
      (mouse_position_x input_state) (mouse_position_y input_state) in
  aspect_corrected_ndc_mouse_pos ndc_mouse_pos
    (F32.div (F32.of_Z (width_px window)) (F32.of_Z (height_px window))).

(** ** The class *)

Section InputGraphicsSoundMenu.

(** The operations of [Window] that the configuration handlers call
    ([set_resolution], [set_fullscreen_by_on_off], [enable_wireframe_mode],
    [disable_wireframe_mode]) are declared elsewhere.  What they do to the
    window is not visible from the header, but they may throw: the
    constructor is documented to throw [std::invalid_argument] when a
    handler is given a setting string that does not parse.  The outcome of
    such an operation is a parameter. *)
Variable window_operation : Call -> outcome unit.

(** [InputState::is_valid_key_string], [get_available_resolutions] and
    [text_utils::add_newlines_to_long_string] are declared elsewhere. *)
Variable is_valid_key_string : string -> bool.
Variable get_available_resolutions : string -> list string.
Variable add_newlines_to_long_string : string -> string.

Definition on_hover : M unit := queue_sound UI_HOVER.
Definition dropdown_on_hover : string -> M unit :=
  fun _ => queue_sound UI_HOVER.

Definition create_main_menu_ui : UI :=
  let on_program_start := (queue_sound UI_CLICK ;; set_enabled false) in
  let on_click_settings := (queue_sound UI_CLICK ;; set_curr_state PROGRAM_SETTINGS) in
  let on_click_about := (queue_sound UI_CLICK ;; set_curr_state ABOUT) in
  let on_game_quit := (queue_sound UI_CLICK ;; call (glfwSetWindowShouldClose true)) in
  let on_back_clicked := (queue_sound UI_CLICK ;; set_curr_state MAIN_MENU) in
  let main_menu_ui : UI := [] in
  let main_menu_ui := add_textbox main_menu_ui "Welcome to the program." in
  let main_menu_ui := add_clickable_textbox main_menu_ui on_program_start on_hover "RESUME" in
  let main_menu_ui := add_clickable_textbox main_menu_ui on_click_settings on_hover "SETTINGS" in
  let main_menu_ui := add_clickable_textbox main_menu_ui on_click_about on_hover "ABOUT" in
  let main_menu_ui := add_clickable_textbox main_menu_ui on_game_quit on_hover "QUIT" in
  main_menu_ui.

Definition about_text : string :=
  "this program was created with the toolbox engine, this engine is an open source collection of tools " ++
  "which come together to form an engine to make games using c++, it's designed for programmers and just " ++
  "gives you tools to do stuff faster in that realm instead of an all encompassing solution. Learn more " ++
  "about it at cpptbx.cuppajoeman.com and join the discord.".

Definition create_about_ui : UI :=
  let on_back_clicked := set_curr_state MAIN_MENU in
  let about_ui : UI := [] in
  let about_ui := add_textbox about_ui (add_newlines_to_long_string about_text) in
  let about_ui := add_clickable_textbox about_ui on_back_clicked on_hover "back to main menu" in
  about_ui.

(** A call to one of these operations: it is recorded, then it returns or
    throws as the operation does. *)
Definition window_op (c : Call) : M unit :=
  call c ;; lift (window_operation c).

(** The three handlers the constructor gives to
    [register_config_handler], with the key each is registered for.  A
    handler that throws ends whatever runs it. *)
Definition config_handlers : list (string * string * (string -> M unit)) :=
  [ ("graphics", "resolution",
      fun resolution => window_op (window_set_resolution resolution));
    ("graphics", "fullscreen",
      fun value => window_op (window_set_fullscreen_by_on_off value));
    ("graphics", "wireframe",
      fun value =>
        if String.eqb value "on" then window_op window_enable_wireframe_mode
        else if String.eqb value "off" then window_op window_disable_wireframe_mode
        else ret tt) ].

(** Modelled from the spec: [Configuration::apply_config_logic], declared
    outside the header, invokes all registered handlers with the current
    values; a key without a value has nothing to hand to its handler. *)
Definition apply_config_logic : M unit :=
  for_each config_handlers
    (fun '(section, key, handler) => fun w =>
       match get_value (configuration w) section key with
       | Some value => handler value w
       | None => ret tt w
       end).

(** [Configuration::save_to_file]: an opaque call. *)
Definition save_to_file : M unit := call configuration_save_to_file.

Definition create_settings_menu_ui : UI :=
  let settings_menu_ui : UI := [] in
  let on_back_clicked := (queue_sound UI_CLICK ;; set_curr_state MAIN_MENU) in
  let on_apply_clicked := (queue_sound UI_CLICK ;; apply_config_logic) in
  let on_save_clicked := (queue_sound UI_CLICK ;; save_to_file) in
  let settings_on_click := queue_sound UI_CLICK in
  let player_on_click := (queue_sound UI_CLICK ;; set_curr_state PROGRAM_SETTINGS) in
  let settings_menu_ui := add_clickable_textbox settings_menu_ui player_on_click on_hover "player" in
  let input_on_click := (queue_sound UI_CLICK ;; set_curr_state INPUT_SETTINGS) in
  let settings_menu_ui := add_clickable_textbox settings_menu_ui input_on_click on_hover "input" in
  let sound_on_click := (queue_sound UI_CLICK ;; set_curr_state SOUND_SETTINGS) in
  let settings_menu_ui := add_clickable_textbox settings_menu_ui sound_on_click on_hover "sound" in
  let graphics_on_click := (queue_sound UI_CLICK ;; set_curr_state GRAPHICS_SETTINGS) in
  let settings_menu_ui := add_clickable_textbox settings_menu_ui graphics_on_click on_hover "graphics" in
  let network_on_click := (queue_sound UI_CLICK ;; set_curr_state ADVANCED_SETTINGS) in
  let settings_menu_ui := add_clickable_textbox settings_menu_ui network_on_click on_hover "network" in
  let settings_menu_ui := add_colored_rectangle settings_menu_ui in
  let settings_menu_ui := add_clickable_textbox settings_menu_ui on_back_clicked on_hover "BACK" in
  let settings_menu_ui := add_clickable_textbox settings_menu_ui on_apply_clicked on_hover "APPLY" in
  let settings_menu_ui := add_clickable_textbox settings_menu_ui on_save_clicked on_hover "SAVE" in
  settings_menu_ui.

Definition create_player_settings_ui : UI :=
  let on_confirm := fun contents : string => call (std_cout contents) in
  let player_settings_ui : UI := [] in
  let player_settings_ui := add_textbox player_settings_ui "username" in
  let player_settings_ui := add_input_box player_settings_ui on_confirm "username" in
  let player_settings_ui := add_textbox player_settings_ui "crosshair" in
  player_settings_ui.

(** The closure factory of the input screen: the inner closure keeps
    [key_str]. *)
Definition create_key_on_confirm_function (key_str : string) : string -> M unit :=
  fun input_value =>
    if is_valid_key_string input_value then
      set_value "input" key_str input_value ;;
      queue_sound UI_CLICK
    else
      call (logger_warn
              (input_value ++
               " is not a valid key string, not setting it in the config, use a proper value.")).

Definition create_input_settings_ui (cfg : gmap (string * string) string) : UI :=
  let input_settings_ui : UI := [] in
  let input_settings_ui := add_textbox input_settings_ui "mouse sensitivity" in
  let sens_on_click := fun option : string =>
    (queue_sound UI_CLICK ;; set_value "input" "mouse_sensitivity" option) in
  let input_settings_ui := add_input_box input_settings_ui sens_on_click "1" in
  let on_confirm := fun contents : string => call (std_cout contents) in
  let input_settings_ui := add_textbox input_settings_ui "fire" in
  let input_settings_ui := add_input_box input_settings_ui on_confirm "lmb" in
  let input_settings_ui := add_textbox input_settings_ui "jump" in
  let input_settings_ui := add_input_box input_settings_ui on_confirm "space" in
  let input_settings_ui := add_textbox input_settings_ui "move forward" in
  let input_settings_ui :=
    add_input_box input_settings_ui (create_key_on_confirm_function "forward")
      (value_or (get_value cfg "input" "forward") "w") in
  let input_settings_ui := add_textbox input_settings_ui "move backward" in
  let input_settings_ui :=
    add_input_box input_settings_ui (create_key_on_confirm_function "back") "s" in
  let input_settings_ui := add_textbox input_settings_ui "move left" in
  let input_settings_ui :=
    add_input_box input_settings_ui (create_key_on_confirm_function "left") "a" in
  let input_settings_ui := add_textbox input_settings_ui "move right" in
  let input_settings_ui :=
    add_input_box input_settings_ui (create_key_on_confirm_function "right") "d" in
  let input_settings_ui := add_textbox input_settings_ui "move up" in
  let input_settings_ui :=
    add_input_box input_settings_ui (create_key_on_confirm_function "left") " " in
  let input_settings_ui := add_textbox input_settings_ui "move down" in
  let input_settings_ui :=
    add_input_box input_settings_ui (create_key_on_confirm_function "down") "left_shift" in
  let input_settings_ui := add_textbox input_settings_ui "slow move" in
  let input_settings_ui :=
    add_input_box input_settings_ui (create_key_on_confirm_function "slow_move") "left_control" in
  let input_settings_ui := add_textbox input_settings_ui "fast move" in
  let input_settings_ui :=
    add_input_box input_settings_ui (create_key_on_confirm_function "fast_move") "tab" in
  input_settings_ui.

Definition create_sound_settings_ui : UI :=
  let sound_settings_ui : UI := [] in
  let sound_settings_ui := add_textbox sound_settings_ui "volume" in
  sound_settings_ui.

(** The confirm closure of the resolution dropdown.  Both [std::stoi] calls
    run before the value is stored, and either may throw. *)
Definition resolution_dropdown_on_click : string -> M unit :=
  fun option =>
    queue_sound UI_CLICK ;;
    match find "x" option with
    | Some x_pos =>
        width <- lift (stoi (substr option 0 x_pos)) ;;
        height <- lift (stoi (substr_from option (x_pos + 1))) ;;
        set_value "graphics" "resolution" option
    | None =>
        throw (invalid_argument
                 "Input string is not in the correct format (e.g. 1280x960)")
    end.

(** The option list of the resolution dropdown. *)
Definition resolution_options : list string :=
  let resolutions := get_available_resolutions "16:9" in
  let resolutions :=
    match resolutions with [] => ["1920x1080"] | _ => resolutions end in
  resolutions.

Definition create_graphics_settings_ui (cfg : gmap (string * string) string) : UI :=
  let resolutions := resolution_options in
  let on_confirm := fun contents : string => call (std_cout contents) in
  let on_click_settings := set_curr_state PROGRAM_SETTINGS in
  let on_off_options := ["on"; "off"] in
  let graphics_settings_ui : UI := [] in
  let options := resolutions in
  let empty_on_click := fun option : string => call (std_cout option) in
  let dropdown_option_idx :=
    get_index_or_default
      (value_or (get_value cfg "graphics" "resolution") "1280x720") options in
  let graphics_settings_ui := add_textbox graphics_settings_ui "resolution" in
  let graphics_settings_ui :=
    add_dropdown graphics_settings_ui on_click_settings on_hover dropdown_option_idx
      options resolution_dropdown_on_click dropdown_on_hover in
  let fullscreen_on_click := fun option : string =>
    (queue_sound UI_CLICK ;; set_value "graphics" "fullscreen" option) in
  let dropdown_option_idx :=
    get_index_or_default
      (value_or (get_value cfg "graphics" "fullscreen") "off") on_off_options in
  let graphics_settings_ui := add_textbox graphics_settings_ui "fullscreen" in
  let graphics_settings_ui :=
    add_dropdown graphics_settings_ui on_click_settings on_hover dropdown_option_idx
      on_off_options fullscreen_on_click dropdown_on_hover in
  let wireframe_on_click := fun option : string =>
    (queue_sound UI_CLICK ;; set_value "graphics" "wireframe" option) in
  let dropdown_option_idx :=
    get_index_or_default
      (value_or (get_value cfg "graphics" "wireframe") "off") on_off_options in
  let graphics_settings_ui := add_textbox graphics_settings_ui "wireframe" in
  let graphics_settings_ui :=
    add_dropdown graphics_settings_ui on_click_settings on_hover dropdown_option_idx
      on_off_options wireframe_on_click dropdown_on_hover in
  let fov_on_confirm := fun option : string =>
    set_value "graphics" "field_of_view" option in
  let graphics_settings_ui := add_textbox graphics_settings_ui "field of view" in
  let graphics_settings_ui :=
    add_input_box graphics_settings_ui fov_on_confirm
      (value_or (get_value cfg "graphics" "field_of_view") "degrees (30-160 limit)") in
  let max_fps_on_confirm := fun option : string =>
    set_value "graphics" "max_fps" option in
  let graphics_settings_ui := add_textbox graphics_settings_ui "max fps" in
  let graphics_settings_ui :=
    add_input_box graphics_settings_ui max_fps_on_confirm
      (value_or (get_value cfg "graphics" "max_fps") "120") in
  let show_fps_on_click := fun option : string =>
    set_value "graphics" "show_fps" option in
  let graphics_settings_ui := add_textbox graphics_settings_ui "show fps" in
  let graphics_settings_ui :=
    add_dropdown graphics_settings_ui on_click_settings on_hover dropdown_option_idx
      on_off_options show_fps_on_click dropdown_on_hover in
  let show_pos_on_click := fun option : string =>
    set_value "graphics" "show_pos" option in
  let graphics_settings_ui := add_textbox graphics_settings_ui "show pos" in
  let graphics_settings_ui :=
    add_dropdown graphics_settings_ui on_click_settings on_hover dropdown_option_idx
      on_off_options show_pos_on_click dropdown_on_hover in
  graphics_settings_ui.

Definition create_advanced_settings_ui : UI :=
  let advanced_settings_ui : UI := [] in
  let advanced_settings_ui :=
    add_textbox advanced_settings_ui "display tick time expendature" in
  let advanced_settings_ui := add_textbox advanced_settings_ui "display current ping" in
  let advanced_settings_ui := add_textbox advanced_settings_ui "display movement dial" in
  advanced_settings_ui.

(** [game_state_to_ui]: the registry, with the screens built by the
    constructor from the configuration [cfg] it was given. *)
Definition game_state_to_ui (cfg : gmap (string * string) string)
    : list (UIState * UI) :=
  [ (MAIN_MENU, create_main_menu_ui);
    (ABOUT, create_about_ui);
    (SETTINGS_MENU, create_settings_menu_ui);
    (PROGRAM_SETTINGS, create_player_settings_ui);
    (INPUT_SETTINGS, create_input_settings_ui cfg);
    (SOUND_SETTINGS, create_sound_settings_ui);
    (GRAPHICS_SETTINGS, create_graphics_settings_ui cfg);
    (ADVANCED_SETTINGS, create_advanced_settings_ui) ].

(** [std::map::find]: the entry of a key, if there is one. *)
Fixpoint map_find (registry : list (UIState * UI)) (k : UIState) : option UI :=
  match registry with
  | [] => None
  | (k', ui) :: rest => if decide (k' = k) then Some ui else map_find rest k
  end.

(** The constructor: the fields take their initial values, the screens are
    built, the three handlers are registered and applied once, and a line is
    logged.  When a handler throws, the constructor ends in that throw and
    the line is not logged. *)
Definition construct (cfg : gmap (string * string) string) : outcome unit * World :=
  (apply_config_logic ;; call (logger_info "successfully initialized"))
    {| enabled := true; curr_state := MAIN_MENU; configuration := cfg; calls := [] |}.

(** The external [process_and_queue_render_ui]: the call is recorded, then
    the closures the render suite selects run in turn. *)
Definition process_and_queue_render_ui (acnmp : vec2) (ui_state : UIState) (selected_ui : UI)
    (ui_render_suite : IUIRenderSuite) (keys : list string)
    (backspace enter lmb : bool) : M unit :=
  call (process_and_queue_render_ui_call acnmp ui_state keys backspace enter lmb) ;;
  fun w =>
    for_each (ui_render_suite acnmp ui_state keys backspace enter lmb w)
      (fun '(i, ev) =>
         match selected_ui !! i with
         | Some element => fire element ev
         | None => ret tt
         end) w.

(** The body of the second loop of [process_and_queue_render_menu]: a
    state without an entry in the registry is skipped. *)
Definition process_ui_state (cfg : gmap (string * string) string)
    (acnmp : vec2) (input_state : InputState)
    (ui_render_suite : IUIRenderSuite) (ui_state : UIState) : M unit :=
  match map_find (game_state_to_ui cfg) ui_state with
  | Some selected_ui =>
      process_and_queue_render_ui acnmp ui_state selected_ui ui_render_suite
        (get_keys_just_pressed_this_tick input_state)
        (is_just_pressed input_state BACKSPACE)
        (is_just_pressed input_state ENTER)
        (is_just_pressed input_state LEFT_MOUSE_BUTTON)
  | None => ret tt
  end.

(** [process_and_queue_render_menu].  The render list is fixed before the
    loop: a closure that changes [curr_state] during the frame does not
    change what the frame processes. *)
Definition process_and_queue_render_menu (cfg : gmap (string * string) string)
    (window : Window) (input_state : InputState)
    (ui_render_suite : IUIRenderSuite) : M unit :=
  let acnmp := acnmp_of window input_state in
  fun w =>
    let uis_to_render := uis_to_render (curr_state w) in
    for_each uis_to_render
      (process_ui_state cfg acnmp input_state ui_render_suite) w.

End InputGraphicsSoundMenu.

(** ** Observations on a run *)

(** The calls to the render suite, in the order they are made: the pointer
    position and the screen of each. *)
Fixpoint render_calls (cs : list Call) : list (vec2 * UIState) :=
  match cs with
  | [] => []
  | process_and_queue_render_ui_call pos ui _ _ _ _ :: rest =>
      (pos, ui) :: render_calls rest
  | _ :: rest => render_calls rest
  end.

Definition processed (cs : list Call) : list UIState := map snd (render_calls cs).
Definition pointers (cs : list Call) : list vec2 := map fst (render_calls cs).

Definition is_render_call (c : Call) : bool :=
  match c with
  | process_and_queue_render_ui_call _ _ _ _ _ _ => true
  | _ => false
  end.

(** [a] is handed to the render suite at some point before [b]. *)
Definition processed_before (a b : UIState) (l : list UIState) : Prop :=
  exists l1 l2 l3, l = l1 ++ a :: l2 ++ b :: l3.

(** A computation respects a relation between the world before and after
    it when every run, completed or interrupted by a throw, is in the
    relation. *)
Definition respects {A} (R : World -> World -> Prop) (m : M A) : Prop :=
  forall w, R w (after m w).

Definition element_respects (R : World -> World -> Prop) (e : Element) : Prop :=
  forall ev, respects R (fire e ev).

Definition same_enabled (w w' : World) : Prop := enabled w' = enabled w.
Definition stays_disabled (w w' : World) : Prop :=
  enabled w = false -> enabled w' = false.
Definition same_curr_state (w w' : World) : Prop := curr_state w' = curr_state w.
Definition no_render_call (w w' : World) : Prop :=
  render_calls (calls w') = render_calls (calls w).

(** ** Concrete inputs used by the examples *)

(** Window operations that all return. *)
Definition sample_window_operation (c : Call) : outcome unit := returned tt.


Definition sample_is_valid_key_string (s : string) : bool :=
  existsb (String.eqb s) ["w"; "a"; "s"; "d"; "q"; "e"; "space"; "left_shift"].

Definition sample_resolutions (aspect : string) : list string :=
  if String.eqb aspect "16:9" then ["1280x720"; "1920x1080"; "2560x1440"] else [].

Definition no_resolutions (aspect : string) : list string := [].

Definition sample_add_newlines (s : string) : string := s.

Definition empty_cfg : gmap (string * string) string := ∅.

Definition world_at (s : UIState) : World :=
  {| enabled := true; curr_state := s; configuration := empty_cfg; calls := [] |}.

Definition disabled_world : World :=
  {| enabled := false; curr_state := MAIN_MENU; configuration := empty_cfg; calls := [] |}.

(** The configuration on which the "show fps" dropdown starts on the wrong
    entry. *)
Definition cfg_show_fps_on : gmap (string * string) string :=
  <[("graphics", "show_fps") := "on"]>
    (<[("graphics", "wireframe") := "off"]> empty_cfg).

Definition window_1920x1080 : Window :=
  {| glfw_window_size := (1920, 1080); width_px := 1920; height_px := 1080 |}.

Definition pointer_at (x y : Z) : InputState :=
  {| mouse_position_x := F64.of_Z x; mouse_position_y := F64.of_Z y;
     get_keys_just_pressed_this_tick := [];
     is_just_pressed := fun _ => false |}.

(** A render suite under which no widget reacts. *)
Definition idle_suite : IUIRenderSuite := fun _ _ _ _ _ _ _ => [].

(** A render suite that hovers the first button of the settings menu and
    clicks the "SETTINGS" button of the main menu. *)
Definition busy_suite : IUIRenderSuite :=
  fun _ ui _ _ _ _ _ =>
    match ui with
    | MAIN_MENU => [(2%nat, click)]
    | SETTINGS_MENU => [(0%nat, hover)]
    | _ => []
    end.

(** One frame of a menu built on the empty configuration, in a 1920x1080
    window with the pointer at its top left corner. *)
Definition sample_frame (suite : IUIRenderSuite) : M unit :=
  process_and_queue_render_menu sample_window_operation
      sample_is_valid_key_string sample_resolutions
    sample_add_newlines empty_cfg window_1920x1080 (pointer_at 0 0) suite.

(** ** Further observations *)

(** A computation returns when no run of it ends in a throw. *)
Definition returns {A} (m : M A) : Prop :=
  forall w, exists a, result m w = returned a.

Definition never_settings_menu (w w' : World) : Prop :=
  curr_state w <> SETTINGS_MENU -> curr_state w' <> SETTINGS_MENU.

Definition same_configuration (w w' : World) : Prop :=
  configuration w' = configuration w.

(** Only keys of the given sections may differ between the two stores. *)
Definition writes_only_sections (sections : list string) (w w' : World) : Prop :=
  forall section key,
    section ∉ sections ->
    configuration w' !! (section, key) = configuration w !! (section, key).




(** One interaction: an event on an element of a screen that the frame of
    the current state hands to the render suite. *)
Definition event_step (registry : list (UIState * UI)) (w w' : World) : Prop :=
  exists s ui i e ev,
    s ∈ uis_to_render (curr_state w) /\
    map_find registry s = Some ui /\
    ui !! i = Some e /\
    w' = after (fire e ev) w.

(** Decimal digit strings and their value. *)
Definition is_digit (c : ascii) : bool :=
  match digit_value c with Some _ => true | None => false end.

Fixpoint all_digits (s : string) : bool :=
  match s with
  | EmptyString => true
  | String a rest => is_digit a && all_digits rest
  end.

Fixpoint decimal (acc : Z) (s : string) : Z :=
  match s with
  | EmptyString => acc
  | String a rest =>
      match digit_value a with
      | Some d => decimal (10 * acc + d) rest
      | None => acc
      end
  end.

Definition starts_with_digit (s : string) : bool :=
  match s with
  | EmptyString => false
  | String a _ => is_digit a
  end.

(** The call a frame makes for one screen. *)
Definition render_call_of (window : Window) (input_state : InputState)
    (s : UIState) : Call :=
  process_and_queue_render_ui_call (acnmp_of window input_state) s
    (get_keys_just_pressed_this_tick input_state)
    (is_just_pressed input_state BACKSPACE)
    (is_just_pressed input_state ENTER)
    (is_just_pressed input_state LEFT_MOUSE_BUTTON).

(** A render suite that confirms a string without separator in the
    resolution dropdown, the second element of the graphics screen. *)
Definition malformed_suite : IUIRenderSuite :=
  fun _ ui _ _ _ _ _ =>
    match ui with
    | GRAPHICS_SETTINGS => [(1%nat, dropdown_click "1280960")]
    | _ => []
    end.

(** * Properties *)

(** ** Running computations *)

Lemma after_bind {A B} (m : M A) (k : A -> M B) (w : World) :
  after (bind m k) w =
  match result m w with
  | returned a => after (k a) (after m w)
  | thrown _ => after m w
  end.
Proof. unfold after, result, bind. destruct (m w) as [[a|e] w']; reflexivity. Qed.

Lemma result_bind {A B} (m : M A) (k : A -> M B) (w : World) :
  result (bind m k) w =
  match result m w with
  | returned a => result (k a) (after m w)
  | thrown e => thrown e
  end.
Proof. unfold after, result, bind. destruct (m w) as [[a|e] w']; reflexivity. Qed.

Lemma render_calls_app (l1 l2 : list Call) :
  render_calls (l1 ++ l2) = render_calls l1 ++ render_calls l2.
Proof.
  induction l1 as [|c l1 IH]; [reflexivity|].
  destruct c; simpl; rewrite ?IH; reflexivity.
Qed.

Lemma render_calls_non_render (l : list Call) (c : Call) :
  is_render_call c = false -> render_calls (l ++ [c]) = render_calls l.
Proof.
  intros Hc. rewrite render_calls_app.
  destruct c; try discriminate Hc; simpl; apply app_nil_r.
Qed.

Lemma uis_to_render_eq (s : UIState) :
  uis_to_render s = s :: get_ui_dependencies s.
Proof. destruct s; reflexivity. Qed.

(** ** Relations respected by every closure of the menu *)

Create HintDb menu discriminated.

Section Respects.

Variable R : World -> World -> Prop.
Hypothesis R_refl : forall w, R w w.
Hypothesis R_trans : forall w1 w2 w3, R w1 w2 -> R w2 w3 -> R w1 w3.
Hypothesis R_call :
  forall c w, is_render_call c = false -> R w (after (call c) w).
Hypothesis R_curr_state : forall s w, R w (after (set_curr_state s) w).
Hypothesis R_set_value : forall s k v w, R w (after (set_value s k v) w).

Lemma respects_ret {A} (a : A) : respects R (ret a).
Proof. intros w. apply R_refl. Qed.

Lemma respects_throw {A} (e : exn) : respects R (@throw A e).
Proof. intros w. apply R_refl. Qed.

Lemma respects_lift {A} (o : outcome A) : respects R (lift o).
Proof. intros w. apply R_refl. Qed.

Lemma respects_bind {A B} (m : M A) (k : A -> M B) :
  respects R m -> (forall a, respects R (k a)) -> respects R (bind m k).
Proof.
  intros Hm Hk w. rewrite after_bind.
  destruct (result m w) as [a|e]; [|apply Hm].
  eapply R_trans; [apply Hm | apply Hk].
Qed.

Lemma respects_for_each {A} (l : list A) (body : A -> M unit) :
  (forall x, x ∈ l -> respects R (body x)) -> respects R (for_each l body).
Proof.
  induction l as [|x l IH]; intros Hbody; simpl.
  - apply respects_ret.
  - apply respects_bind.
    + apply Hbody. left.
    + intros _. apply IH. intros y Hy. apply Hbody. right. exact Hy.
Qed.

Lemma respects_call (c : Call) :
  is_render_call c = false -> respects R (call c).
Proof. intros Hc w. apply R_call, Hc. Qed.

Lemma respects_queue_sound (t : SoundType) : respects R (queue_sound t).
Proof. apply respects_call. reflexivity. Qed.

Lemma respects_set_curr_state (s : UIState) : respects R (set_curr_state s).
Proof. intros w. apply R_curr_state. Qed.

Lemma respects_set_value (s k v : string) : respects R (set_value s k v).
Proof. intros w. apply R_set_value. Qed.

Ltac respects_step :=
  first
    [ apply respects_bind; [|intros ?]
    | apply respects_ret
    | apply respects_throw
    | apply respects_lift
    | apply respects_queue_sound
    | apply respects_set_curr_state
    | apply respects_set_value
    | apply respects_call; reflexivity ].

(** The three handlers the constructor registers. *)
Lemma respects_config_handlers (wop : Call -> outcome unit)
    (section key : string) (handler : string -> M unit) (value : string) :
  (section, key, handler) ∈ (config_handlers wop) ->
  respects R (handler value).
Proof.
  unfold config_handlers, window_op. intros Hin.
  repeat (apply elem_of_cons in Hin as [Hin|Hin];
          [injection Hin as -> -> ->|]).
  - repeat respects_step.
  - repeat respects_step.
  - destruct (String.eqb value "on"); [repeat respects_step|].
    destruct (String.eqb value "off"); repeat respects_step.
  - apply elem_of_nil in Hin. destruct Hin.
Qed.

Lemma respects_apply_config_logic (wop : Call -> outcome unit) :
  respects R (apply_config_logic wop).
Proof.
  unfold apply_config_logic.
  apply respects_for_each. intros [[section key] handler] Hin w.
  unfold after. destruct (get_value (configuration w) section key) as [value|];
    [|apply R_refl].
  exact (respects_config_handlers wop section key handler value Hin w).
Qed.

Lemma respects_key_on_confirm (is_valid : string -> bool) (key_str input_value : string) :
  respects R (create_key_on_confirm_function is_valid key_str input_value).
Proof.
  unfold create_key_on_confirm_function.
  destruct (is_valid input_value); repeat respects_step.
Qed.

Lemma respects_resolution_dropdown_on_click (option : string) :
  respects R (resolution_dropdown_on_click option).
Proof.
  unfold resolution_dropdown_on_click.
  respects_step; [respects_step|].
  destruct (find "x" option); repeat respects_step.
Qed.

Ltac respects_closure :=
  first
    [ apply respects_apply_config_logic
    | apply respects_key_on_confirm
    | apply respects_resolution_dropdown_on_click
    | respects_step ].

Ltac respects_elements :=
  repeat constructor;
  intros ev; destruct ev; cbn [fire];
  unfold on_hover, dropdown_on_hover, save_to_file;
  repeat respects_closure.

Lemma respects_about_ui (nl : string -> string) :
  Forall (element_respects R) (create_about_ui nl).
Proof. respects_elements. Qed.

Lemma respects_settings_menu_ui (wop : Call -> outcome unit) :
  Forall (element_respects R) (create_settings_menu_ui wop).
Proof. respects_elements. Qed.

Lemma respects_player_settings_ui :
  Forall (element_respects R) create_player_settings_ui.
Proof. respects_elements. Qed.

Lemma respects_input_settings_ui (is_valid : string -> bool) cfg :
  Forall (element_respects R) (create_input_settings_ui is_valid cfg).
Proof. respects_elements. Qed.

Lemma respects_sound_settings_ui :
  Forall (element_respects R) create_sound_settings_ui.
Proof. respects_elements. Qed.

Lemma respects_graphics_settings_ui (avail : string -> list string) cfg :
  Forall (element_respects R) (create_graphics_settings_ui avail cfg).
Proof. respects_elements. Qed.

Lemma respects_advanced_settings_ui :
  Forall (element_respects R) create_advanced_settings_ui.
Proof. respects_elements. Qed.

(** The main menu: every closure but the click of its second element, the
    "RESUME" button. *)
Lemma respects_main_menu_but_resume (i : nat) (e : Element) (ev : UIEvent) :
  create_main_menu_ui !! i = Some e ->
  (i, ev) <> (1%nat, click) ->
  respects R (fire e ev).
Proof.
  intros Hi Hne.
  destruct i as [|[|[|[|[|i]]]]]; try discriminate Hi;
    injection Hi as <-;
    destruct ev; cbn [fire]; unfold on_hover;
    try (exfalso; apply Hne; reflexivity);
    repeat respects_step.
Qed.

Lemma respects_registry_but_main_menu wop is_valid avail nl cfg (s : UIState) (ui : UI) :
  s <> MAIN_MENU ->
  map_find (game_state_to_ui wop is_valid avail nl cfg) s = Some ui ->
  Forall (element_respects R) ui.
Proof.
  intros Hs Hfind.
  destruct s; try (exfalso; apply Hs; reflexivity);
    injection Hfind as <-.
  - apply respects_settings_menu_ui.
  - apply respects_player_settings_ui.
  - apply respects_input_settings_ui.
  - apply respects_sound_settings_ui.
  - apply respects_graphics_settings_ui.
  - apply respects_advanced_settings_ui.
  - apply respects_about_ui.
Qed.

Lemma respects_registry_but_resume wop is_valid avail nl cfg
    (s : UIState) (ui : UI) (i : nat) (e : Element) (ev : UIEvent) :
  map_find (game_state_to_ui wop is_valid avail nl cfg) s = Some ui ->
  ui !! i = Some e ->
  (s, i, ev) <> (MAIN_MENU, 1%nat, click) ->
  respects R (fire e ev).
Proof.
  intros Hfind Hi Hne.
  destruct (decide (s = MAIN_MENU)) as [->|Hs].
  - injection Hfind as <-.
    apply (respects_main_menu_but_resume i); [exact Hi|].
    intros Heq. apply Hne. injection Heq as -> ->. reflexivity.
  - pose proof (respects_registry_but_main_menu _ _ _ _ _ _ _ Hs Hfind) as Hall.
    rewrite Forall_lookup in Hall. exact (Hall i e Hi ev).
Qed.

Hypothesis R_disable : forall w, R w (after (set_enabled false) w).

Lemma respects_main_menu_ui : Forall (element_respects R) create_main_menu_ui.
Proof.
  repeat constructor; intros ev; destruct ev; cbn [fire]; unfold on_hover;
    repeat first [respects_step | exact R_disable].
Qed.

Lemma respects_registry wop is_valid avail nl cfg (s : UIState) (ui : UI) :
  map_find (game_state_to_ui wop is_valid avail nl cfg) s = Some ui ->
  Forall (element_respects R) ui.
Proof.
  intros Hfind. destruct (decide (s = MAIN_MENU)) as [->|Hs].
  - injection Hfind as <-. apply respects_main_menu_ui.
  - eapply respects_registry_but_main_menu; eassumption.
Qed.

End Respects.

(** ** The relations at hand *)

Lemma same_enabled_refl w : same_enabled w w.
Proof. reflexivity. Qed.
Lemma same_enabled_trans w1 w2 w3 :
  same_enabled w1 w2 -> same_enabled w2 w3 -> same_enabled w1 w3.
Proof. unfold same_enabled. congruence. Qed.
Lemma same_enabled_call c w : same_enabled w (after (call c) w).
Proof. reflexivity. Qed.
Lemma same_enabled_curr_state s w : same_enabled w (after (set_curr_state s) w).
Proof. reflexivity. Qed.
Lemma same_enabled_set_value s k v w : same_enabled w (after (set_value s k v) w).
Proof. reflexivity. Qed.

Lemma stays_disabled_refl w : stays_disabled w w.
Proof. intros H. exact H. Qed.
Lemma stays_disabled_trans w1 w2 w3 :
  stays_disabled w1 w2 -> stays_disabled w2 w3 -> stays_disabled w1 w3.
Proof. unfold stays_disabled. auto. Qed.
Lemma stays_disabled_call c w : stays_disabled w (after (call c) w).
Proof. intros H. exact H. Qed.
Lemma stays_disabled_curr_state s w : stays_disabled w (after (set_curr_state s) w).
Proof. intros H. exact H. Qed.
Lemma stays_disabled_set_value s k v w : stays_disabled w (after (set_value s k v) w).
Proof. intros H. exact H. Qed.
Lemma stays_disabled_disable w : stays_disabled w (after (set_enabled false) w).
Proof. intros _. reflexivity. Qed.

Lemma same_curr_state_refl w : same_curr_state w w.
Proof. reflexivity. Qed.
Lemma same_curr_state_trans w1 w2 w3 :
  same_curr_state w1 w2 -> same_curr_state w2 w3 -> same_curr_state w1 w3.
Proof. unfold same_curr_state. congruence. Qed.
Lemma same_curr_state_call c w : same_curr_state w (after (call c) w).
Proof. reflexivity. Qed.

Lemma no_render_call_refl w : no_render_call w w.
Proof. reflexivity. Qed.
Lemma no_render_call_trans w1 w2 w3 :
  no_render_call w1 w2 -> no_render_call w2 w3 -> no_render_call w1 w3.
Proof. unfold no_render_call. congruence. Qed.
Lemma no_render_call_call c w :
  is_render_call c = false -> no_render_call w (after (call c) w).
Proof. intros Hc. apply render_calls_non_render, Hc. Qed.
Lemma no_render_call_curr_state s w : no_render_call w (after (set_curr_state s) w).
Proof. reflexivity. Qed.
Lemma no_render_call_set_value s k v w : no_render_call w (after (set_value s k v) w).
Proof. reflexivity. Qed.
Lemma no_render_call_disable w : no_render_call w (after (set_enabled false) w).
Proof. reflexivity. Qed.

#[export] Hint Resolve
  same_enabled_refl same_enabled_trans same_enabled_call
  same_enabled_curr_state same_enabled_set_value
  stays_disabled_refl stays_disabled_trans stays_disabled_call
  stays_disabled_curr_state stays_disabled_set_value stays_disabled_disable
  same_curr_state_refl same_curr_state_trans same_curr_state_call
  no_render_call_refl no_render_call_trans no_render_call_call
  no_render_call_curr_state no_render_call_set_value no_render_call_disable
  : menu.

(** Every screen of the enumeration has an entry in the registry: the
    lookup of the frame loop never misses. *)
Lemma map_find_total wop is_valid avail nl cfg (s : UIState) :
  is_Some (map_find (game_state_to_ui wop is_valid avail nl cfg) s).
Proof. destruct s; simpl; eauto. Qed.

(** ** One frame *)

Section Frame.

Variable wop : Call -> outcome unit.
Variable is_valid : string -> bool.
Variable avail : string -> list string.
Variable nl : string -> string.
Variable cfg : gmap (string * string) string.
Variable suite : IUIRenderSuite.

(** What the render suite is told about the keyboard and the mouse button
    plays no part in what follows. *)
Variable keys : list string.
Variable bs en lmb : bool.

(** The closures run for one screen are closures of that screen. *)
Lemma respects_selected_closures (R : World -> World -> Prop)
    (pos : vec2) (s : UIState) (ui : UI) (w0 : World) :
  (forall w, R w w) ->
  (forall w1 w2 w3, R w1 w2 -> R w2 w3 -> R w1 w3) ->
  (forall i e ev, ui !! i = Some e -> (i, ev) ∈ suite pos s keys bs en lmb w0 ->
                  respects R (fire e ev)) ->
  respects R
    (for_each (suite pos s keys bs en lmb w0)
       (fun '(i, ev) =>
          match ui !! i with
          | Some element => fire element ev
          | None => ret tt
          end)).
Proof.
  intros Hrefl Htrans Hel.
  apply respects_for_each; [exact Hrefl | exact Htrans |].
  intros [i ev] Hin.
  destruct (ui !! i) as [e|] eqn:Hi.
  - apply (Hel i e ev Hi Hin).
  - apply respects_ret, Hrefl.
Qed.

Lemma respects_process_and_queue_render_ui (R : World -> World -> Prop)
    (pos : vec2) (s : UIState) (ui : UI) :
  (forall w, R w w) ->
  (forall w1 w2 w3, R w1 w2 -> R w2 w3 -> R w1 w3) ->
  (forall c w, R w (after (call c) w)) ->
  (forall i e ev w, ui !! i = Some e -> (i, ev) ∈ suite pos s keys bs en lmb w ->
                    respects R (fire e ev)) ->
  respects R (process_and_queue_render_ui pos s ui suite keys bs en lmb).
Proof.
  intros Hrefl Htrans Hcall Hel. unfold process_and_queue_render_ui.
  apply respects_bind; [exact Htrans | intros w; apply Hcall |].
  intros _ w.
  apply (respects_selected_closures R pos s ui w Hrefl Htrans).
  intros i e ev. apply Hel.
Qed.

(** One screen: exactly one call to the render suite, made before any
    closure runs, and none by the closures. *)
Lemma render_calls_process_and_queue_render_ui (pos : vec2) (s : UIState) (ui : UI) (w : World) :
  map_find (game_state_to_ui wop is_valid avail nl cfg) s = Some ui ->
  render_calls (calls (after (process_and_queue_render_ui pos s ui suite keys bs en lmb) w)) =
  render_calls (calls w) ++ [(pos, s)].
Proof.
  intros Hfind. unfold process_and_queue_render_ui. rewrite after_bind.
  change (result (call (process_and_queue_render_ui_call pos s keys bs en lmb)) w)
    with (returned tt).
  set (w1 := after (call (process_and_queue_render_ui_call pos s keys bs en lmb)) w).
  assert (Hw1 : render_calls (calls w1) = render_calls (calls w) ++ [(pos, s)]).
  { subst w1. simpl. rewrite render_calls_app. reflexivity. }
  rewrite <- Hw1.
  apply (respects_selected_closures no_render_call pos s ui w1);
    [auto with menu | eauto with menu |].
  intros i e ev Hi _.
  pose proof (respects_registry no_render_call) as Hreg.
  specialize (Hreg no_render_call_refl no_render_call_trans no_render_call_call
                no_render_call_curr_state no_render_call_set_value
                no_render_call_disable wop is_valid avail nl cfg s ui Hfind).
  rewrite Forall_lookup in Hreg. exact (Hreg i e Hi ev).
Qed.

End Frame.

Section FrameLoop.

Variable wop : Call -> outcome unit.
Variable is_valid : string -> bool.
Variable avail : string -> list string.
Variable nl : string -> string.
Variable cfg : gmap (string * string) string.
Variable window : Window.
Variable input_state : InputState.
Variable suite : IUIRenderSuite.

Lemma process_ui_state_found (pos : vec2) (s : UIState) (ui : UI) :
  map_find (game_state_to_ui wop is_valid avail nl cfg) s = Some ui ->
  process_ui_state wop is_valid avail nl cfg pos input_state suite s =
  process_and_queue_render_ui pos s ui suite
    (get_keys_just_pressed_this_tick input_state)
    (is_just_pressed input_state BACKSPACE)
    (is_just_pressed input_state ENTER)
    (is_just_pressed input_state LEFT_MOUSE_BUTTON).
Proof. intros Hfind. unfold process_ui_state. rewrite Hfind. reflexivity. Qed.

Lemma respects_process_ui_state (R : World -> World -> Prop)
    (pos : vec2) (s : UIState) :
  (forall w, R w w) ->
  (forall w1 w2 w3, R w1 w2 -> R w2 w3 -> R w1 w3) ->
  (forall c w, R w (after (call c) w)) ->
  (forall ui i e ev keys bs en lmb w,
      map_find (game_state_to_ui wop is_valid avail nl cfg) s = Some ui ->
      ui !! i = Some e ->
      (i, ev) ∈ suite pos s keys bs en lmb w ->
      respects R (fire e ev)) ->
  respects R (process_ui_state wop is_valid avail nl cfg pos input_state suite s).
Proof.
  intros Hrefl Htrans Hcall Hel.
  destruct (map_find_total wop is_valid avail nl cfg s) as [ui Hfind].
  rewrite (process_ui_state_found pos s ui Hfind).
  apply respects_process_and_queue_render_ui; [exact Hrefl | exact Htrans | exact Hcall |].
  intros i e ev w'. apply (Hel ui i e ev _ _ _ _ w' Hfind).
Qed.

Lemma respects_process_and_queue_render_menu (R : World -> World -> Prop) :
  (forall w, R w w) ->
  (forall w1 w2 w3, R w1 w2 -> R w2 w3 -> R w1 w3) ->
  (forall c w, R w (after (call c) w)) ->
  (forall s ui i e ev pos keys bs en lmb w,
      map_find (game_state_to_ui wop is_valid avail nl cfg) s = Some ui ->
      ui !! i = Some e ->
      (i, ev) ∈ suite pos s keys bs en lmb w ->
      respects R (fire e ev)) ->
  respects R (process_and_queue_render_menu wop is_valid avail nl cfg
                window input_state suite).
Proof.
  intros Hrefl Htrans Hcall Hel w.
  refine (respects_for_each R Hrefl Htrans (uis_to_render (curr_state w)) _ _ w).
  intros s _.
  apply respects_process_ui_state; [exact Hrefl | exact Htrans | exact Hcall |].
  intros ui i e ev keys bs en lmb w'. apply Hel.
Qed.

(** The loop of the frame over any list of screens: the render suite is
    called for a prefix of the list, in the order of the list, with the one
    pointer position; for the whole list when no closure throws. *)
Lemma render_calls_for_each (pos : vec2) (l : list UIState) (w : World) :
  let m :=
    for_each l (process_ui_state wop is_valid avail nl cfg pos input_state suite) in
  exists done : list UIState,
    render_calls (calls (after m w)) =
      render_calls (calls w) ++ map (fun s => (pos, s)) done /\
    done `prefix_of` l /\
    head done = head l /\
    (result m w = returned tt -> done = l).
Proof.
  revert w. induction l as [|s l IH]; intros w; simpl.
  - exists []. simpl. rewrite app_nil_r. repeat split. apply prefix_nil.
  - destruct (map_find_total wop is_valid avail nl cfg s) as [ui Hfind].
    rewrite after_bind, result_bind.
    rewrite (process_ui_state_found pos s ui Hfind).
    pose proof (render_calls_process_and_queue_render_ui wop is_valid avail nl cfg suite
                  (get_keys_just_pressed_this_tick input_state)
                  (is_just_pressed input_state BACKSPACE)
                  (is_just_pressed input_state ENTER)
                  (is_just_pressed input_state LEFT_MOUSE_BUTTON)
                  pos s ui w Hfind) as Hone.
    match goal with
    | |- context [result ?run w] => destruct (result run w) as [[]|e]
    end.
    + match type of Hone with
      | render_calls (calls ?w1) = _ =>
          destruct (IH w1) as (done & Hcalls & Hpre & _ & Hall)
      end.
      exists (s :: done). repeat split.
      * rewrite Hcalls, Hone. simpl. rewrite <- app_assoc. reflexivity.
      * apply prefix_cons, Hpre.
      * intros Hret. f_equal. apply Hall, Hret.
    + exists [s]. repeat split.
      * exact Hone.
      * apply prefix_cons, prefix_nil.
      * intros Hret. discriminate Hret.
Qed.

End FrameLoop.


(** ** [std::stoi] on a few strings *)

Example stoi_examples :
  stoi "1280" = returned 1280%Z /\
  stoi "720" = returned 720%Z /\
  stoi "  -12ab" = returned (-12)%Z /\
  stoi "+7" = returned 7%Z /\
  stoi "" = thrown (invalid_argument "stoi") /\
  stoi "a" = thrown (invalid_argument "stoi") /\
  stoi "- 1" = thrown (invalid_argument "stoi") /\
  stoi "2147483647" = returned 2147483647%Z /\
  stoi "2147483648" = thrown (out_of_range "stoi") /\
  stoi "-2147483648" = returned (-2147483648)%Z /\
  stoi "-2147483649" = thrown (out_of_range "stoi").
Proof. repeat split. Qed.

(** ** The render set *)

(** C1. For every state [S] the per-frame render set is [S] followed by
    [get_ui_dependencies S] and has no duplicates; the dependencies are empty
    for MAIN_MENU, SETTINGS_MENU and ABOUT and exactly SETTINGS_MENU for the
    five sub-settings states.  [get_ui_dependencies] is a function on the
    enumeration: it has a value on every state and no error result. *)
Theorem render_set_state_then_dependencies (S : UIState) :
  uis_to_render S = S :: get_ui_dependencies S /\
  NoDup (uis_to_render S) /\
  get_ui_dependencies S =
    match S with
    | MAIN_MENU | SETTINGS_MENU | ABOUT => []
    | PROGRAM_SETTINGS | INPUT_SETTINGS | SOUND_SETTINGS
    | GRAPHICS_SETTINGS | ADVANCED_SETTINGS => [SETTINGS_MENU]
    end.
Proof.
  split; [apply uis_to_render_eq|]. split; [|destruct S; reflexivity].
  rewrite uis_to_render_eq.
  destruct S; apply (bool_decide_unpack _); vm_compute; exact I.
Qed.

(** ** Button transitions *)

Lemma construct_fields (wop : Call -> outcome unit)
    (cfg : gmap (string * string) string) :
  curr_state (snd (construct wop cfg)) = MAIN_MENU /\
  enabled (snd (construct wop cfg)) = true.
Proof.
  unfold construct.
  set (w0 := {| enabled := true; curr_state := MAIN_MENU;
                configuration := cfg; calls := [] |}).
  set (m := bind (apply_config_logic wop) _).
  split.
  - assert (H : respects same_curr_state m).
    { apply respects_bind; [exact same_curr_state_trans | | intros _ w; reflexivity].
      apply respects_apply_config_logic;
        [exact same_curr_state_refl | exact same_curr_state_trans |].
      intros c w _. apply same_curr_state_call. }
    exact (H w0).
  - assert (H : respects same_enabled m).
    { apply respects_bind; [exact same_enabled_trans | | intros _ w; reflexivity].
      apply respects_apply_config_logic;
        [exact same_enabled_refl | exact same_enabled_trans |].
      intros c w _. apply same_enabled_call. }
    exact (H w0).
Qed.

(** C2. The menu starts in MAIN_MENU.  The click closure of "SETTINGS" sets
    [curr_state] to PROGRAM_SETTINGS; the one of the settings menu's "BACK"
    sets it to MAIN_MENU; the one of "QUIT" leaves [curr_state] as it is and
    asks the window to close; the one of "RESUME" sets [enabled] to false
    and leaves [curr_state] as it is.  None of them throws. *)
Theorem main_menu_button_transitions (wop : Call -> outcome unit)
    (cfg : gmap (string * string) string) :
  curr_state (snd (construct wop cfg)) = MAIN_MENU /\
  (exists on_click,
      button "SETTINGS" create_main_menu_ui = Some on_click /\
      forall w, result on_click w = returned tt /\
                curr_state (after on_click w) = PROGRAM_SETTINGS) /\
  (exists on_click,
      button "BACK" (create_settings_menu_ui wop) = Some on_click /\
      forall w, result on_click w = returned tt /\
                curr_state (after on_click w) = MAIN_MENU) /\
  (exists on_click,
      button "QUIT" create_main_menu_ui = Some on_click /\
      forall w, result on_click w = returned tt /\
                curr_state (after on_click w) = curr_state w /\
                calls (after on_click w) =
                  calls w ++ [queue_sound_call UI_CLICK;
                              glfwSetWindowShouldClose true]) /\
  (exists on_click,
      button "RESUME" create_main_menu_ui = Some on_click /\
      forall w, result on_click w = returned tt /\
                enabled (after on_click w) = false /\
                curr_state (after on_click w) = curr_state w).
Proof.
  split; [apply construct_fields|].
  repeat split; eexists; (split; [reflexivity|]); intros w; repeat split.
  simpl. rewrite <- app_assoc. reflexivity.
Qed.

(** ** The pointer transform *)

(** Every pointer position a frame hands to the render suite is the
    corrected position computed at the start of the frame. *)
Lemma frame_pointers wop is_valid avail nl cfg window input_state suite (w : World) :
  exists n : nat,
    pointers (calls (after (process_and_queue_render_menu wop is_valid avail nl cfg
                              window input_state suite) w)) =
    pointers (calls w) ++ replicate n (acnmp_of window input_state).
Proof.
  destruct (render_calls_for_each wop is_valid avail nl cfg input_state suite
              (acnmp_of window input_state) (uis_to_render (curr_state w)) w)
    as (done & Hcalls & _).
  exists (length done). unfold pointers.
  change (after (process_and_queue_render_menu wop is_valid avail nl cfg window
                   input_state suite) w)
    with (after (for_each (uis_to_render (curr_state w))
                   (process_ui_state wop is_valid avail nl cfg
                      (acnmp_of window input_state) input_state suite)) w).
  rewrite Hcalls, map_app. f_equal.
  clear Hcalls. induction done as [|s done IH]; simpl; [reflexivity|].
  f_equal. exact IH.
Qed.

(** C3. For a pointer at [(raw_x, raw_y)] and a viewport [width] by
    [height], the corrected coordinate is
    [((2*raw_x/width - 1) * (width/height), 1 - 2*raw_y/height)], with the
    arithmetic of the source: the normalisation in [double], its result
    narrowed to [float], the aspect ratio and the product in [float].  It is
    the position every screen of the frame receives.  For 1920x1080, raw
    (960,540) gives (0,0), raw (0,0) gives (-16/9, 1) and raw (1920,1080)
    gives (16/9, -1), where 16/9 is the [float] quotient of 16 by 9, within
    2^-24 of the rational. *)
Theorem corrected_pointer_coordinate :
  (forall (raw_x raw_y : spec_float) (width height : Z) keys pressed,
      acnmp_of
        {| glfw_window_size := (width, height);
           width_px := width; height_px := height |}
        {| mouse_position_x := raw_x; mouse_position_y := raw_y;
           get_keys_just_pressed_this_tick := keys;
           is_just_pressed := pressed |} =
      {| vx := F32.mul
                 (F32.of_double
                    (F64.sub (F64.div (F64.mul (F64.of_Z 2) raw_x) (F64.of_Z width))
                             (F64.of_Z 1)))
                 (F32.div (F32.of_Z width) (F32.of_Z height));
         vy := F32.of_double
                 (F64.sub (F64.of_Z 1)
                          (F64.div (F64.mul (F64.of_Z 2) raw_y) (F64.of_Z height))) |}) /\
  (forall wop is_valid avail nl cfg window input_state suite w,
      exists n : nat,
        pointers (calls (after (process_and_queue_render_menu wop is_valid avail nl
                                  cfg window input_state suite) w)) =
        pointers (calls w) ++ replicate n (acnmp_of window input_state)) /\
  acnmp_of window_1920x1080 (pointer_at 960 540) =
    {| vx := F32.of_Z 0; vy := F32.of_Z 0 |} /\
  acnmp_of window_1920x1080 (pointer_at 0 0) =
    {| vx := F32.div (F32.of_Z (-16)) (F32.of_Z 9); vy := F32.of_Z 1 |} /\
  acnmp_of window_1920x1080 (pointer_at 1920 1080) =
    {| vx := F32.div (F32.of_Z 16) (F32.of_Z 9); vy := F32.of_Z (-1) |} /\
  (exists q : Q,
      SF2Q (F32.div (F32.of_Z 16) (F32.of_Z 9)) = Some q /\
      (Qabs (q - (16 # 9)) <= 1 # (2 ^ 24))%Q).
Proof.
  split; [reflexivity|].
  split; [intros; apply frame_pointers|].
  split; [vm_compute; reflexivity|].
  split; [vm_compute; reflexivity|].
  split; [vm_compute; reflexivity|].
  exists (14913081 # 8388608)%Q. split; [vm_compute; reflexivity|].
  vm_compute. discriminate.
Qed.

(** ** Dropdown start indices *)

Lemma std_find_None (value : string) (vec : list string) :
  std_find value vec = None <-> value ∉ vec.
Proof.
  induction vec as [|x vec IH]; simpl.
  - split; [intros _ H; apply elem_of_nil in H; exact H | reflexivity].
  - destruct (String.eqb_spec x value) as [->|Hne].
    + split; [discriminate|]. intros H. exfalso. apply H. left.
    + destruct (std_find value vec) as [i|].
      * split; [discriminate|]. intros H. exfalso.
        destruct IH as [_ IH].
        assert (Hout : value ∉ vec) by (intros Hin; apply H; right; exact Hin).
        discriminate (IH Hout).
      * split; [|reflexivity]. intros _ Hin.
        apply elem_of_cons in Hin as [Heq|Hin]; [congruence|].
        destruct IH as [IH _]. exact (IH eq_refl Hin).
Qed.

Lemma std_find_Some (value : string) (vec : list string) (i : nat) :
  std_find value vec = Some i ->
  vec !! i = Some value /\ forall j, (j < i)%nat -> vec !! j <> Some value.
Proof.
  revert i. induction vec as [|x vec IH]; simpl; intros i Hi; [discriminate Hi|].
  destruct (String.eqb_spec x value) as [->|Hne].
  - injection Hi as <-. split; [reflexivity|]. intros j Hj. lia.
  - destruct (std_find value vec) as [k|]; [|discriminate Hi].
    injection Hi as <-. destruct (IH k eq_refl) as [Hk Hfirst].
    split; [exact Hk|].
    intros [|j] Hj; simpl; [congruence|]. apply Hfirst. lia.
Qed.

(** [get_index_or_default] yields the position of the first occurrence of
    the value, and 0 when there is none. *)
Lemma get_index_or_default_spec (value : string) (vec : list string) :
  (value ∉ vec -> get_index_or_default value vec = 0%Z) /\
  (value ∈ vec ->
   exists i : nat,
     get_index_or_default value vec = Z.of_nat i /\
     vec !! i = Some value /\
     forall j, (j < i)%nat -> vec !! j <> Some value).
Proof.
  unfold get_index_or_default. split.
  - intros Hout. apply std_find_None in Hout. rewrite Hout. reflexivity.
  - intros Hin. destruct (std_find value vec) as [i|] eqn:Hfind.
    + exists i. split; [reflexivity|]. apply std_find_Some, Hfind.
    + apply std_find_None in Hfind. destruct (Hfind Hin).
Qed.

(** The three dropdowns whose index is looked up from their own value. *)
Lemma graphics_dropdown_indices avail cfg :
  dropdown_index_of "resolution" (create_graphics_settings_ui avail cfg) =
    Some (get_index_or_default
            (value_or (get_value cfg "graphics" "resolution") "1280x720")
            (resolution_options avail)) /\
  dropdown_index_of "fullscreen" (create_graphics_settings_ui avail cfg) =
    Some (get_index_or_default
            (value_or (get_value cfg "graphics" "fullscreen") "off") ["on"; "off"]) /\
  dropdown_index_of "wireframe" (create_graphics_settings_ui avail cfg) =
    Some (get_index_or_default
            (value_or (get_value cfg "graphics" "wireframe") "off") ["on"; "off"]).
Proof. repeat split. Qed.

(** C4 (the code departs from the claim).  The "show fps" and "show pos"
    dropdowns are built with the index computed for "wireframe", whatever
    the configuration holds under ("graphics","show_fps") and
    ("graphics","show_pos").  With wireframe "off" and show_fps "on" the
    "show fps" dropdown starts on index 1, while "on" is at index 0 of its
    options.  The lookup itself is as claimed: "off" in ["on";"off"] is at
    index 1, also when taken as the default of an absent value, and an
    unmatched value gives 0. *)
Theorem show_fps_dropdown_index_is_wireframe_index :
  (forall avail cfg,
      dropdown_index_of "show fps" (create_graphics_settings_ui avail cfg) =
        dropdown_index_of "wireframe" (create_graphics_settings_ui avail cfg) /\
      dropdown_index_of "show pos" (create_graphics_settings_ui avail cfg) =
        dropdown_index_of "wireframe" (create_graphics_settings_ui avail cfg)) /\
  (forall avail,
      get_value cfg_show_fps_on "graphics" "show_fps" = Some "on" /\
      dropdown_options_of "show fps"
        (create_graphics_settings_ui avail cfg_show_fps_on) = Some ["on"; "off"] /\
      dropdown_index_of "show fps"
        (create_graphics_settings_ui avail cfg_show_fps_on) = Some 1%Z /\
      get_index_or_default "on" ["on"; "off"] = 0%Z) /\
  get_index_or_default "off" ["on"; "off"] = 1%Z /\
  get_index_or_default (value_or (get_value empty_cfg "graphics" "fullscreen") "off")
    ["on"; "off"] = 1%Z /\
  get_index_or_default "maybe" ["on"; "off"] = 0%Z.
Proof.
  split; [intros avail cfg; split; reflexivity|].
  split; [|repeat split].
  intros avail. split; [vm_compute; reflexivity|].
  split; [reflexivity|]. split; [|reflexivity].
  change (dropdown_index_of "show fps"
            (create_graphics_settings_ui avail cfg_show_fps_on))
    with (Some (get_index_or_default
                  (value_or (get_value cfg_show_fps_on "graphics" "wireframe") "off")
                  ["on"; "off"])).
  vm_compute. reflexivity.
Qed.

(** ** The resolution dropdown *)

(** C5 (counterexample).  "axb" contains the separator, yet confirming it
    throws from [std::stoi] and nothing is stored under
    ("graphics","resolution"). *)
Lemma resolution_with_separator_not_persisted :
  find "x" "axb" = Some 1%nat /\
  result (resolution_dropdown_on_click "axb") (world_at GRAPHICS_SETTINGS) =
    thrown (invalid_argument "stoi") /\
  configuration (after (resolution_dropdown_on_click "axb")
                   (world_at GRAPHICS_SETTINGS))
    !! ("graphics", "resolution") <> Some "axb".
Proof.
  split; [reflexivity|]. split; [reflexivity|].
  vm_compute. discriminate.
Qed.

(** C5 (amended).  The confirm closure of the resolution dropdown first
    queues a click sound.  If the string has an 'x' and [std::stoi] accepts
    both the text before the first 'x' and the text after it, the string is
    stored verbatim under ("graphics","resolution").  If it has an 'x' but
    [std::stoi] rejects one of the two parts, the closure throws that
    exception and the configuration is unchanged.  If it has no 'x', the
    closure throws [std::invalid_argument] and the configuration is
    unchanged.  "1280x720" is stored; "1280960" throws. *)
Theorem resolution_dropdown_confirm (option : string) (w : World) :
  let m := resolution_dropdown_on_click option in
  calls (after m w) = calls w ++ [queue_sound_call UI_CLICK] /\
  match find "x" option with
  | None =>
      result m w =
        thrown (invalid_argument
                  "Input string is not in the correct format (e.g. 1280x960)") /\
      configuration (after m w) = configuration w
  | Some x_pos =>
      match stoi (substr option 0 x_pos),
            stoi (substr_from option (x_pos + 1)) with
      | returned _, returned _ =>
          result m w = returned tt /\
          configuration (after m w) =
            <[("graphics", "resolution") := option]> (configuration w)
      | thrown e, _ | returned _, thrown e =>
          result m w = thrown e /\
          configuration (after m w) = configuration w
      end
  end /\
  configuration (after (resolution_dropdown_on_click "1280x720") w) =
    <[("graphics", "resolution") := "1280x720"]> (configuration w) /\
  result (resolution_dropdown_on_click "1280960") w =
    thrown (invalid_argument
              "Input string is not in the correct format (e.g. 1280x960)") /\
  (forall avail cfg,
      dropdown_on_click_of "resolution" (create_graphics_settings_ui avail cfg) =
        Some resolution_dropdown_on_click).
Proof.
  cbv zeta. split; [|split; [|repeat split; reflexivity]].
  - unfold resolution_dropdown_on_click, after, bind, queue_sound, call. simpl.
    destruct (find "x" option) as [x_pos|]; [|reflexivity].
    unfold lift. destruct (stoi (substr option 0 x_pos)); [|reflexivity].
    destruct (stoi (substr_from option (x_pos + 1))); reflexivity.
  - unfold resolution_dropdown_on_click, after, result, bind, queue_sound, call.
    simpl.
    destruct (find "x" option) as [x_pos|]; [|split; reflexivity].
    unfold lift. destruct (stoi (substr option 0 x_pos)); [|split; reflexivity].
    destruct (stoi (substr_from option (x_pos + 1))); split; reflexivity.
Qed.

(** ** Key bindings *)

(** C6 (counterexample).  "w" is a valid key string, yet submitting it to
    the "fire" box of the input screen stores nothing and queues no sound:
    the configuration is as before and the only call made prints the
    string. *)
Lemma fire_box_confirm_only_prints :
  exists confirm : string -> M unit,
    on_confirm_of "fire"
      (create_input_settings_ui sample_is_valid_key_string empty_cfg) =
      Some confirm /\
    sample_is_valid_key_string "w" = true /\
    result (confirm "w") (world_at INPUT_SETTINGS) = returned tt /\
    configuration (after (confirm "w") (world_at INPUT_SETTINGS)) =
      configuration (world_at INPUT_SETTINGS) /\
    (forall key,
        configuration (after (confirm "w") (world_at INPUT_SETTINGS))
          !! ("input", key) <> Some "w") /\
    calls (after (confirm "w") (world_at INPUT_SETTINGS)) = [std_cout "w"] /\
    queue_sound_call UI_CLICK
      ∉ calls (after (confirm "w") (world_at INPUT_SETTINGS)).
Proof.
  eexists. split; [reflexivity|]. do 3 (split; [reflexivity|]).
  split; [|split; [reflexivity|]].
  - intros key. simpl. unfold empty_cfg. rewrite lookup_empty. discriminate.
  - simpl. intros Hin. apply list_elem_of_singleton in Hin. discriminate Hin.
Qed.

(** C6 (amended).  The confirm closure that [create_key_on_confirm_function]
    makes for a key [key_str]: a valid key string is stored under
    ("input", key_str) and a click sound is queued; an invalid one is
    reported by one warning, and nothing else changes: the configuration,
    [curr_state] and [enabled] are as before and no sound is queued.  The
    boxes "move forward", "move backward", "move left", "move right",
    "move down", "slow move" and "fast move" carry this closure for the keys
    "forward", "back", "left", "right", "down", "slow_move" and "fast_move".
    The boxes "fire" and "jump" do not: whatever string they are given, valid
    or not, they print it, and nothing is stored, no sound is queued and no
    warning is logged. *)
Theorem key_binding_boxes_confirm (is_valid : string -> bool)
    (key_str input_value : string) (w : World) :
  let m := create_key_on_confirm_function is_valid key_str input_value in
  result m w = returned tt /\
  curr_state (after m w) = curr_state w /\
  enabled (after m w) = enabled w /\
  (if is_valid input_value
   then configuration (after m w) =
          <[("input", key_str) := input_value]> (configuration w) /\
        calls (after m w) = calls w ++ [queue_sound_call UI_CLICK]
   else configuration (after m w) = configuration w /\
        calls (after m w) =
          calls w ++
          [logger_warn
             (input_value ++
              " is not a valid key string, not setting it in the config, use a proper value.")]) /\
  (forall cfg,
      let ui := create_input_settings_ui is_valid cfg in
      on_confirm_of "move forward" ui =
        Some (create_key_on_confirm_function is_valid "forward") /\
      on_confirm_of "move backward" ui =
        Some (create_key_on_confirm_function is_valid "back") /\
      on_confirm_of "move left" ui =
        Some (create_key_on_confirm_function is_valid "left") /\
      on_confirm_of "move right" ui =
        Some (create_key_on_confirm_function is_valid "right") /\
      on_confirm_of "move down" ui =
        Some (create_key_on_confirm_function is_valid "down") /\
      on_confirm_of "slow move" ui =
        Some (create_key_on_confirm_function is_valid "slow_move") /\
      on_confirm_of "fast move" ui =
        Some (create_key_on_confirm_function is_valid "fast_move") /\
      exists on_confirm : string -> M unit,
        on_confirm_of "fire" ui = Some on_confirm /\
        on_confirm_of "jump" ui = Some on_confirm /\
        forall contents w',
          result (on_confirm contents) w' = returned tt /\
          curr_state (after (on_confirm contents) w') = curr_state w' /\
          enabled (after (on_confirm contents) w') = enabled w' /\
          configuration (after (on_confirm contents) w') = configuration w' /\
          calls (after (on_confirm contents) w') =
            calls w' ++ [std_cout contents]).
Proof.
  cbv zeta. split; [|split; [|split; [|split]]].
  - unfold create_key_on_confirm_function, result.
    destruct (is_valid input_value); reflexivity.
  - unfold create_key_on_confirm_function, after.
    destruct (is_valid input_value); reflexivity.
  - unfold create_key_on_confirm_function, after.
    destruct (is_valid input_value); reflexivity.
  - unfold create_key_on_confirm_function, after.
    destruct (is_valid input_value); split; reflexivity.
  - intros cfg. do 7 (split; [reflexivity|]).
    eexists. split; [reflexivity|]. split; [reflexivity|].
    intros contents w'. repeat split.
Qed.

(** ** The order of a frame *)

Lemma frame_processed wop is_valid avail nl cfg window input_state suite (w : World) :
  let m := process_and_queue_render_menu wop is_valid avail nl cfg
             window input_state suite in
  exists done : list UIState,
    processed (calls (after m w)) = processed (calls w) ++ done /\
    done `prefix_of` (curr_state w :: get_ui_dependencies (curr_state w)) /\
    head done = Some (curr_state w) /\
    (result m w = returned tt ->
     done = curr_state w :: get_ui_dependencies (curr_state w)).
Proof.
  cbv zeta.
  destruct (render_calls_for_each wop is_valid avail nl cfg input_state suite
              (acnmp_of window input_state) (uis_to_render (curr_state w)) w)
    as (done & Hcalls & Hpre & Hhead & Hall).
  rewrite uis_to_render_eq in Hpre, Hhead.
  exists done. split; [|split; [exact Hpre | split; [exact Hhead |]]].
  2: { intros Hret. rewrite <- uis_to_render_eq. apply Hall. exact Hret. }
  unfold processed.
  change (after (process_and_queue_render_menu wop is_valid avail nl cfg window
                   input_state suite) w)
    with (after (for_each (uis_to_render (curr_state w))
                   (process_ui_state wop is_valid avail nl cfg
                      (acnmp_of window input_state) input_state suite)) w).
  rewrite Hcalls, map_app, map_map. simpl. rewrite map_id. reflexivity.
Qed.

(** C7 (counterexample).  With SOUND_SETTINGS active and no widget
    reacting, the frame hands SOUND_SETTINGS to the render suite first and
    SETTINGS_MENU second: SETTINGS_MENU is not processed before the active
    screen. *)
Lemma dependency_processed_after_active_screen :
  processed (calls (after (sample_frame idle_suite) (world_at SOUND_SETTINGS))) =
    [SOUND_SETTINGS; SETTINGS_MENU] /\
  ~ processed_before SETTINGS_MENU SOUND_SETTINGS
      (processed (calls (after (sample_frame idle_suite) (world_at SOUND_SETTINGS)))).
Proof.
  split; [vm_compute; reflexivity|].
  intros (l1 & l2 & l3 & H). vm_compute in H.
  destruct l1 as [|a [|b l1]]; simpl in H.
  - discriminate H.
  - injection H as _ H. destruct l2; discriminate H.
  - injection H as _ _ H. destruct l1; discriminate H.
Qed.

(** C7 (amended).  Each frame, the per-screen processing call is made for
    the states of the render set in the order of the set: the active state
    (the value of [curr_state] when the frame starts) first, then its
    dependencies.  A closure that throws ends the frame after the screen it
    belongs to; the active screen has been processed by then.  When
    [curr_state] is a sub-settings state and the frame completes, the
    active screen is processed before SETTINGS_MENU's. *)
Theorem frame_processes_active_screen_first
    wop is_valid avail nl cfg window input_state suite (w : World) :
  let m := process_and_queue_render_menu wop is_valid avail nl cfg
             window input_state suite in
  exists done : list UIState,
    processed (calls (after m w)) = processed (calls w) ++ done /\
    done `prefix_of` (curr_state w :: get_ui_dependencies (curr_state w)) /\
    head done = Some (curr_state w) /\
    (result m w = returned tt ->
     done = curr_state w :: get_ui_dependencies (curr_state w)) /\
    (result m w = returned tt ->
     get_ui_dependencies (curr_state w) = [SETTINGS_MENU] ->
     done = [curr_state w; SETTINGS_MENU]).
Proof.
  cbv zeta.
  destruct (frame_processed wop is_valid avail nl cfg window input_state suite w)
    as (done & Hcalls & Hpre & Hhead & Hall).
  exists done. repeat split; try assumption.
  intros Hret Hdeps. rewrite <- Hdeps. apply Hall, Hret.
Qed.

Lemma frame_processes_active_screen_first_witness :
  result (sample_frame busy_suite) (world_at GRAPHICS_SETTINGS) = returned tt /\
  get_ui_dependencies (curr_state (world_at GRAPHICS_SETTINGS)) = [SETTINGS_MENU] /\
  processed (calls (after (sample_frame busy_suite) (world_at GRAPHICS_SETTINGS))) =
    [GRAPHICS_SETTINGS; SETTINGS_MENU].
Proof.
  split; [reflexivity|]. split; [reflexivity|].
  destruct (frame_processes_active_screen_first sample_window_operation
      sample_is_valid_key_string
              sample_resolutions sample_add_newlines empty_cfg
              window_1920x1080 (pointer_at 0 0) busy_suite
              (world_at GRAPHICS_SETTINGS))
    as (done & Hcalls & _ & _ & _ & Hsub).
  unfold sample_frame. rewrite Hcalls. rewrite (Hsub eq_refl eq_refl). reflexivity.
Defined.

(** ** The resolution options *)

(** C8.  The option list of the resolution dropdown of the graphics screen
    is ["1920x1080"] when the query for "16:9" yields nothing, and the
    queried sequence otherwise. *)
Theorem resolution_options_fallback (avail : string -> list string)
    (cfg : gmap (string * string) string) :
  exists options : list string,
    dropdown_options_of "resolution" (create_graphics_settings_ui avail cfg) =
      Some options /\
    (avail "16:9" = [] -> options = ["1920x1080"]) /\
    (avail "16:9" <> [] -> options = avail "16:9").
Proof.
  exists (resolution_options avail). split; [reflexivity|].
  unfold resolution_options. split.
  - intros ->. reflexivity.
  - intros Hne. destruct (avail "16:9"); [destruct Hne|]; reflexivity.
Qed.

Lemma resolution_options_fallback_witness :
  dropdown_options_of "resolution"
    (create_graphics_settings_ui no_resolutions empty_cfg) = Some ["1920x1080"] /\
  dropdown_options_of "resolution"
    (create_graphics_settings_ui sample_resolutions empty_cfg) =
    Some ["1280x720"; "1920x1080"; "2560x1440"].
Proof.
  split.
  - destruct (resolution_options_fallback no_resolutions empty_cfg)
      as (options & Hopt & Hempty & _).
    rewrite Hopt, (Hempty eq_refl). reflexivity.
  - destruct (resolution_options_fallback sample_resolutions empty_cfg)
      as (options & Hopt & _ & Hsome).
    rewrite Hopt, Hsome; [reflexivity | discriminate].
Defined.

(** The two strings of the key-binding example, under a validity check
    that knows "w" and not "zz". *)
Example key_binding_examples :
  sample_is_valid_key_string "w" = true /\
  configuration (after (create_key_on_confirm_function sample_is_valid_key_string
                          "forward" "w") (world_at INPUT_SETTINGS))
    !! ("input", "forward") = Some "w" /\
  sample_is_valid_key_string "zz" = false /\
  after (create_key_on_confirm_function sample_is_valid_key_string
           "forward" "zz") (world_at INPUT_SETTINGS) =
    {| enabled := true; curr_state := INPUT_SETTINGS; configuration := empty_cfg;
       calls := [logger_warn
                   "zz is not a valid key string, not setting it in the config, use a proper value."] |}.
Proof. repeat split. Qed.

(** ** The "move up" binding *)

(** C9.  The confirm closure of the "move up" input box is the one made
    for the key "left", the same as the "move left" box: a valid key string
    confirmed there is stored under ("input","left") and under no other
    key, so a later "move left" confirm overwrites it, and the other way
    round. *)
Theorem move_up_writes_left_binding (is_valid : string -> bool)
    (cfg : gmap (string * string) string) :
  exists move_up move_left : string -> M unit,
    on_confirm_of "move up" (create_input_settings_ui is_valid cfg) = Some move_up /\
    on_confirm_of "move left" (create_input_settings_ui is_valid cfg) = Some move_left /\
    move_up = move_left /\
    forall (v1 v2 : string) (w : World),
      is_valid v1 = true -> is_valid v2 = true ->
      configuration (after (move_up v1) w) =
        <[("input", "left") := v1]> (configuration w) /\
      (forall k, k <> ("input", "left") ->
                 configuration (after (move_up v1) w) !! k = configuration w !! k) /\
      configuration (after (move_left v2) (after (move_up v1) w))
        !! ("input", "left") = Some v2 /\
      configuration (after (move_up v1) (after (move_left v2) w))
        !! ("input", "left") = Some v1.
Proof.
  exists (create_key_on_confirm_function is_valid "left"),
         (create_key_on_confirm_function is_valid "left").
  split; [reflexivity|]. split; [reflexivity|]. split; [reflexivity|].
  intros v1 v2 w Hv1 Hv2.
  unfold create_key_on_confirm_function, after. rewrite Hv1, Hv2. simpl.
  repeat split.
  - intros k Hk. apply lookup_insert_ne. congruence.
  - apply lookup_insert_eq.
  - apply lookup_insert_eq.
Qed.

Lemma move_up_writes_left_binding_witness :
  exists move_up move_left : string -> M unit,
    on_confirm_of "move up"
      (create_input_settings_ui sample_is_valid_key_string empty_cfg) = Some move_up /\
    on_confirm_of "move left"
      (create_input_settings_ui sample_is_valid_key_string empty_cfg) = Some move_left /\
    sample_is_valid_key_string "e" = true /\
    sample_is_valid_key_string "a" = true /\
    configuration (after (move_up "e") (world_at INPUT_SETTINGS))
      !! ("input", "up") = None /\
    configuration (after (move_left "a") (after (move_up "e") (world_at INPUT_SETTINGS)))
      !! ("input", "left") = Some "a".
Proof.
  destruct (move_up_writes_left_binding sample_is_valid_key_string empty_cfg)
    as (move_up & move_left & Hup & Hleft & _ & H).
  exists move_up, move_left.
  split; [exact Hup|]. split; [exact Hleft|].
  split; [reflexivity|]. split; [reflexivity|].
  destruct (H "e" "a" (world_at INPUT_SETTINGS) eq_refl eq_refl)
    as (_ & Hother & Hover & _).
  split; [|exact Hover].
  rewrite Hother; [reflexivity | discriminate].
Defined.

(** ** The [enabled] flag *)

(** C10.  The click closure of the main menu's "RESUME" button, its second
    element, sets [enabled] to false.  Every other closure of every element
    of every screen leaves [enabled] as it is, and so do the three
    configuration handlers and [apply_config_logic], which runs them; the
    constructor leaves it at its initial value true.  A frame in which the
    render suite does not click "RESUME" leaves [enabled] as it is.  Nothing sets it back to true: once
    false it is false after every closure and after every frame. *)
Theorem enabled_cleared_only_by_resume
    (wop : Call -> outcome unit)
    (is_valid : string -> bool) (avail : string -> list string)
    (nl : string -> string) (cfg : gmap (string * string) string) :
  let registry := game_state_to_ui wop is_valid avail nl cfg in
  (exists resume,
      create_main_menu_ui !! 1%nat = Some (clickable_textbox resume on_hover "RESUME") /\
      button "RESUME" create_main_menu_ui = Some resume /\
      forall w, enabled (after resume w) = false) /\
  (forall s ui i e ev w,
      map_find registry s = Some ui -> ui !! i = Some e ->
      (s, i, ev) <> (MAIN_MENU, 1%nat, click) ->
      enabled (after (fire e ev) w) = enabled w) /\
  (forall section key handler value w,
      (section, key, handler) ∈ (config_handlers wop) ->
      enabled (after (handler value) w) = enabled w) /\
  (forall w, enabled (after (apply_config_logic wop) w) = enabled w) /\
  enabled (snd (construct wop cfg)) = true /\
  (forall window input_state suite w,
      (forall pos keys backspace enter lmb w',
          (1%nat, click) ∉ suite pos MAIN_MENU keys backspace enter lmb w') ->
      enabled (after (process_and_queue_render_menu wop is_valid avail nl cfg
                        window input_state suite) w) = enabled w) /\
  (forall s ui i e ev w,
      map_find registry s = Some ui -> ui !! i = Some e ->
      enabled w = false -> enabled (after (fire e ev) w) = false) /\
  (forall window input_state suite w,
      enabled w = false ->
      enabled (after (process_and_queue_render_menu wop is_valid avail nl cfg
                        window input_state suite) w) = false).
Proof.
  cbv zeta. split; [|split; [|split; [|split; [|split; [|split; [|split]]]]]].
  - eexists. split; [reflexivity|]. split; [reflexivity|]. intros w. reflexivity.
  - intros s ui i e ev w Hfind Hi Hne.
    refine (respects_registry_but_resume same_enabled same_enabled_refl
              same_enabled_trans _ same_enabled_curr_state same_enabled_set_value
              wop is_valid avail nl cfg s ui i e ev Hfind Hi Hne w).
    intros c w' _. apply same_enabled_call.
  - intros section key handler value w Hin.
    refine (respects_config_handlers same_enabled same_enabled_refl
              same_enabled_trans _ wop section key handler value Hin w).
    intros c w' _. apply same_enabled_call.
  - intros w.
    refine (respects_apply_config_logic same_enabled same_enabled_refl
              same_enabled_trans _ wop w).
    intros c w' _. apply same_enabled_call.
  - apply construct_fields.
  - intros window input_state suite w Hsuite.
    refine (respects_process_and_queue_render_menu wop is_valid avail nl cfg window
              input_state suite same_enabled same_enabled_refl same_enabled_trans
              same_enabled_call _ w).
    intros s ui i e ev pos keys bs en lmb w' Hfind Hi Hin.
    refine (respects_registry_but_resume same_enabled same_enabled_refl
              same_enabled_trans _ same_enabled_curr_state same_enabled_set_value
              wop is_valid avail nl cfg s ui i e ev Hfind Hi _).
    + intros c w'' _. apply same_enabled_call.
    + intros Heq. injection Heq as -> -> ->. exact (Hsuite _ _ _ _ _ _ Hin).
  - intros s ui i e ev w Hfind Hi.
    pose proof (respects_registry stays_disabled stays_disabled_refl
                  stays_disabled_trans
                  (fun c w' _ => stays_disabled_call c w')
                  stays_disabled_curr_state stays_disabled_set_value
                  stays_disabled_disable wop is_valid avail nl cfg s ui Hfind) as Hall.
    rewrite Forall_lookup in Hall. exact (Hall i e Hi ev w).
  - intros window input_state suite w.
    refine (respects_process_and_queue_render_menu wop is_valid avail nl cfg window
              input_state suite stays_disabled stays_disabled_refl
              stays_disabled_trans stays_disabled_call _ w).
    intros s ui i e ev pos keys bs en lmb w' Hfind Hi _.
    pose proof (respects_registry stays_disabled stays_disabled_refl
                  stays_disabled_trans
                  (fun c w' _ => stays_disabled_call c w')
                  stays_disabled_curr_state stays_disabled_set_value
                  stays_disabled_disable wop is_valid avail nl cfg s ui Hfind) as Hall.
    rewrite Forall_lookup in Hall. exact (Hall i e Hi ev).
Qed.

Lemma enabled_cleared_only_by_resume_witness :
  enabled (after (sample_frame busy_suite) (world_at MAIN_MENU)) = true /\
  curr_state (after (sample_frame busy_suite) (world_at MAIN_MENU)) = PROGRAM_SETTINGS /\
  enabled (after (sample_frame busy_suite) disabled_world) = false.
Proof.
  destruct (enabled_cleared_only_by_resume sample_window_operation
      sample_is_valid_key_string
              sample_resolutions sample_add_newlines empty_cfg)
    as (_ & _ & _ & _ & _ & Hframe & _ & Hoff).
  unfold sample_frame.
  split; [|split; [reflexivity|]].
  - rewrite Hframe; [reflexivity|].
    intros pos keys backspace enter lmb w' Hin.
    apply list_elem_of_singleton in Hin. discriminate Hin.
  - apply Hoff. reflexivity.
Defined.

(** * Further properties of the closures and of a frame *)

(** ** Predicates kept by the primitives the closures are made of

    The closures of the widgets are made of a few primitives: a call to a
    service, an assignment to [curr_state] (never of SETTINGS_MENU), a
    [set_value] under section "input" or "graphics", [enabled = false], and,
    in the resolution closure only, a throw.  A predicate on computations
    kept by sequencing holds of a closure as soon as it holds of the
    primitives the closure uses. *)

Section Closures.

Variable P : forall A : Type, M A -> Prop.
Variable section_ok : string -> Prop.

Hypothesis P_ret : forall A (a : A), P A (ret a).
Hypothesis P_bind :
  forall A B (m : M A) (k : A -> M B),
    P A m -> (forall a, P B (k a)) -> P B (bind m k).
Hypothesis P_read :
  forall A (f : World -> M A), (forall w0, P A (f w0)) -> P A (fun w => f w w).
Hypothesis P_ext :
  forall A (m m' : M A), (forall w, m w = m' w) -> P A m -> P A m'.
Hypothesis P_call : forall c, is_render_call c = false -> P unit (call c).
Hypothesis P_curr_state :
  forall s, s <> SETTINGS_MENU -> P unit (set_curr_state s).
Hypothesis P_set_value :
  forall s k v, section_ok s -> P unit (set_value s k v).

Lemma P_for_each {A} (l : list A) (body : A -> M unit) :
  (forall x, x ∈ l -> P unit (body x)) -> P unit (for_each l body).
Proof.
  induction l as [|x l IH]; intros Hbody; simpl.
  - apply P_ret.
  - apply P_bind.
    + apply Hbody. left.
    + intros _. apply IH. intros y Hy. apply Hbody. right. exact Hy.
Qed.

Ltac closure_step :=
  first
    [ apply P_bind; [|intros ?]
    | apply P_ret
    | apply P_curr_state; discriminate
    | apply P_call; reflexivity
    | apply P_set_value; assumption ].

Ltac closure_elements :=
  repeat constructor;
  (let ev := fresh "ev" in intros ev; destruct ev); cbn [fire];
  unfold on_hover, dropdown_on_hover, save_to_file, queue_sound,
    create_key_on_confirm_function;
  repeat first
    [ closure_step
    | match goal with
      | |- P _ (if ?b then _ else _) => destruct b
      end ].

Lemma P_about_ui (nl : string -> string) :
  Forall (fun e => forall ev, P unit (fire e ev)) (create_about_ui nl).
Proof. closure_elements. Qed.

(** The settings menu, but for the click of its eighth element, the
    "APPLY" button, which runs the configuration handlers. *)
Lemma P_settings_menu_but_apply (wop : Call -> outcome unit)
    (i : nat) (e : Element) (ev : UIEvent) :
  create_settings_menu_ui wop !! i = Some e ->
  (i, ev) <> (7%nat, click) ->
  P unit (fire e ev).
Proof.
  intros Hi Hne.
  destruct i as [|[|[|[|[|[|[|[|[|i]]]]]]]]]; try discriminate Hi;
    injection Hi as <-;
    destruct ev; cbn [fire]; unfold on_hover, save_to_file, queue_sound;
    try (exfalso; apply Hne; reflexivity);
    repeat closure_step.
Qed.

Lemma P_player_settings_ui :
  Forall (fun e => forall ev, P unit (fire e ev)) create_player_settings_ui.
Proof. closure_elements. Qed.

Lemma P_sound_settings_ui :
  Forall (fun e => forall ev, P unit (fire e ev)) create_sound_settings_ui.
Proof. closure_elements. Qed.

Lemma P_advanced_settings_ui :
  Forall (fun e => forall ev, P unit (fire e ev)) create_advanced_settings_ui.
Proof. closure_elements. Qed.

Lemma P_input_settings_ui (is_valid : string -> bool) cfg :
  section_ok "input" ->
  Forall (fun e => forall ev, P unit (fire e ev))
    (create_input_settings_ui is_valid cfg).
Proof. intros Hinput. closure_elements. Qed.

(** The graphics screen, but for the confirm closure of its second
    element, the resolution dropdown. *)
Lemma P_graphics_settings_but_resolution avail cfg
    (i : nat) (e : Element) (ev : UIEvent) :
  section_ok "graphics" ->
  create_graphics_settings_ui avail cfg !! i = Some e ->
  (forall option, (i, ev) <> (1%nat, dropdown_click option)) ->
  P unit (fire e ev).
Proof.
  intros Hgraphics Hi Hne.
  cbv [create_graphics_settings_ui add_textbox add_dropdown add_input_box
         push_back app] in Hi.
  destruct i as [|[|i]].
  - injection Hi as <-. destruct ev; cbn [fire]; apply P_ret.
  - injection Hi as <-.
    destruct ev; cbn [fire]; unfold on_hover, dropdown_on_hover, queue_sound;
      try (exfalso; eapply Hne; reflexivity);
      repeat closure_step.
  - change ((?a :: ?b :: ?l) !! S (S i)) with (l !! i) in Hi.
    match type of Hi with
    | ?l !! i = Some e =>
        assert (Hall : Forall (fun e => forall ev, P unit (fire e ev)) l)
    end.
    { closure_elements. }
    rewrite Forall_lookup in Hall. exact (Hall i e Hi ev).
Qed.

Hypothesis P_disable : P unit (set_enabled false).

Lemma P_main_menu_ui :
  Forall (fun e => forall ev, P unit (fire e ev)) create_main_menu_ui.
Proof.
  repeat constructor; intros ev; destruct ev; cbn [fire];
    unfold on_hover, queue_sound;
    repeat first [closure_step | exact P_disable].
Qed.

(** All closures of all screens, but for the two that can throw: the
    resolution confirm and the click of "APPLY". *)
Lemma P_registry_but_throwing wop is_valid avail nl cfg
    (s : UIState) (ui : UI) (i : nat) (e : Element) (ev : UIEvent) :
  section_ok "input" -> section_ok "graphics" ->
  map_find (game_state_to_ui wop is_valid avail nl cfg) s = Some ui ->
  ui !! i = Some e ->
  (forall option, (s, i, ev) <> (GRAPHICS_SETTINGS, 1%nat, dropdown_click option)) ->
  (s, i, ev) <> (SETTINGS_MENU, 7%nat, click) ->
  P unit (fire e ev).
Proof.
  intros Hinput Hgraphics Hfind Hi Hne Happly.
  assert (Hall : forall ui', ui = ui' ->
                 Forall (fun e => forall ev, P unit (fire e ev)) ui' ->
                 P unit (fire e ev)).
  { intros ui' <- Hall. rewrite Forall_lookup in Hall. exact (Hall i e Hi ev). }
  destruct s; injection Hfind as Hui; symmetry in Hui.
  - apply (Hall _ Hui), P_main_menu_ui.
  - subst ui. apply (P_settings_menu_but_apply wop i e ev Hi).
    intros Heq. apply Happly. injection Heq as -> ->. reflexivity.
  - apply (Hall _ Hui), P_player_settings_ui.
  - apply (Hall _ Hui), P_input_settings_ui, Hinput.
  - apply (Hall _ Hui), P_sound_settings_ui.
  - subst ui.
    apply (P_graphics_settings_but_resolution avail cfg i e ev Hgraphics Hi).
    intros option Heq. apply (Hne option). injection Heq as -> ->. reflexivity.
  - apply (Hall _ Hui), P_advanced_settings_ui.
  - apply (Hall _ Hui), P_about_ui.
Qed.

Hypothesis P_throw : forall e, P unit (throw e).
Hypothesis P_lift : forall A (o : outcome A), P A (lift o).

Lemma P_config_handlers (wop : Call -> outcome unit) (section key : string)
    (handler : string -> M unit) (value : string) :
  (section, key, handler) ∈ (config_handlers wop) -> P unit (handler value).
Proof.
  unfold config_handlers, window_op. intros Hin.
  repeat (apply elem_of_cons in Hin as [Hin|Hin];
          [injection Hin as -> -> ->|]).
  - repeat first [closure_step | apply P_lift].
  - repeat first [closure_step | apply P_lift].
  - destruct (String.eqb value "on"); [repeat first [closure_step | apply P_lift]|].
    destruct (String.eqb value "off"); repeat first [closure_step | apply P_lift].
  - apply elem_of_nil in Hin. destruct Hin.
Qed.

Lemma P_apply_config_logic (wop : Call -> outcome unit) :
  P unit (apply_config_logic wop).
Proof.
  unfold apply_config_logic.
  apply P_for_each. intros [[section key] handler] Hin.
  apply (P_ext unit
           (fun w =>
              match get_value (configuration w) section key with
              | Some value => handler value
              | None => ret tt
              end w)).
  { intros w. destruct (get_value (configuration w) section key); reflexivity. }
  apply (P_read unit
           (fun w0 =>
              match get_value (configuration w0) section key with
              | Some value => handler value
              | None => ret tt
              end)).
  intros w0. destruct (get_value (configuration w0) section key) as [value|].
  - exact (P_config_handlers wop section key handler value Hin).
  - apply P_ret.
Qed.

Lemma P_settings_menu_ui (wop : Call -> outcome unit) :
  Forall (fun e => forall ev, P unit (fire e ev)) (create_settings_menu_ui wop).
Proof.
  rewrite Forall_lookup. intros i e Hi ev.
  destruct (decide (i = 7%nat)) as [->|Hother].
  - destruct ev;
      try (apply (P_settings_menu_but_apply wop 7%nat e _ Hi); discriminate).
    injection Hi as <-. cbn [fire].
    unfold queue_sound. closure_step; [closure_step|].
    apply P_apply_config_logic.
  - apply (P_settings_menu_but_apply wop i e ev Hi).
    intros Heq. apply Hother. injection Heq as -> _. reflexivity.
Qed.

Lemma P_resolution_dropdown_on_click (option : string) :
  section_ok "graphics" -> P unit (resolution_dropdown_on_click option).
Proof.
  intros Hgraphics. unfold resolution_dropdown_on_click, queue_sound.
  closure_step; [closure_step|].
  destruct (find "x" option);
    repeat first [closure_step | apply P_throw | apply P_lift].
Qed.

Lemma P_graphics_settings_ui avail cfg :
  section_ok "graphics" ->
  Forall (fun e => forall ev, P unit (fire e ev))
    (create_graphics_settings_ui avail cfg).
Proof.
  intros Hgraphics. rewrite Forall_lookup. intros i e Hi ev.
  destruct (decide (i = 1%nat)) as [->|Hother].
  - injection Hi as <-.
    destruct ev; cbn [fire]; unfold on_hover, dropdown_on_hover, queue_sound;
      try solve [repeat closure_step].
    apply P_resolution_dropdown_on_click, Hgraphics.
  - apply (P_graphics_settings_but_resolution avail cfg i e ev Hgraphics Hi).
    intros option Heq. apply Hother. injection Heq as -> _. reflexivity.
Qed.

(** All closures of all screens. *)
Lemma P_registry wop is_valid avail nl cfg
    (s : UIState) (ui : UI) (i : nat) (e : Element) (ev : UIEvent) :
  section_ok "input" -> section_ok "graphics" ->
  map_find (game_state_to_ui wop is_valid avail nl cfg) s = Some ui ->
  ui !! i = Some e ->
  P unit (fire e ev).
Proof.
  intros Hinput Hgraphics Hfind Hi.
  assert (Hall : forall ui', ui = ui' ->
                 Forall (fun e => forall ev, P unit (fire e ev)) ui' ->
                 P unit (fire e ev)).
  { intros ui' <- Hall. rewrite Forall_lookup in Hall. exact (Hall i e Hi ev). }
  destruct (decide (s = SETTINGS_MENU)) as [->|Hsettings].
  { injection Hfind as Hui. symmetry in Hui.
    apply (Hall _ Hui), P_settings_menu_ui. }
  destruct (decide (s = GRAPHICS_SETTINGS)) as [->|Hgraphics_screen].
  { injection Hfind as Hui. symmetry in Hui.
    apply (Hall _ Hui), P_graphics_settings_ui, Hgraphics. }
  apply (P_registry_but_throwing wop is_valid avail nl cfg s ui i e ev
           Hinput Hgraphics Hfind Hi).
  - intros option Heq. apply Hgraphics_screen. injection Heq as -> _ _. reflexivity.
  - intros Heq. apply Hsettings. injection Heq as -> _ _. reflexivity.
Qed.

End Closures.

(** The same predicates, through the frame function. *)
Section ClosuresFrame.

Variable P : forall A : Type, M A -> Prop.

Hypothesis P_ret : forall A (a : A), P A (ret a).
Hypothesis P_bind :
  forall A B (m : M A) (k : A -> M B),
    P A m -> (forall a, P B (k a)) -> P B (bind m k).
Hypothesis P_read :
  forall A (f : World -> M A), (forall w0, P A (f w0)) -> P A (fun w => f w w).
Hypothesis P_render_call :
  forall c, is_render_call c = true -> P unit (call c).

Variable wop : Call -> outcome unit.
Variable is_valid : string -> bool.
Variable avail : string -> list string.
Variable nl : string -> string.
Variable cfg : gmap (string * string) string.
Variable suite : IUIRenderSuite.

Lemma P_process_and_queue_render_ui (pos : vec2) (s : UIState) (ui : UI)
    (keys : list string) (bs en lmb : bool) :
  (forall i e ev w, ui !! i = Some e -> (i, ev) ∈ suite pos s keys bs en lmb w ->
                    P unit (fire e ev)) ->
  P unit (process_and_queue_render_ui pos s ui suite keys bs en lmb).
Proof.
  intros Hel. unfold process_and_queue_render_ui.
  apply P_bind; [apply P_render_call; reflexivity|]. intros _.
  apply (P_read unit
           (fun w0 =>
              for_each (suite pos s keys bs en lmb w0)
                (fun '(i, ev) =>
                   match ui !! i with
                   | Some element => fire element ev
                   | None => ret tt
                   end))).
  intros w0. apply P_for_each; [exact P_ret | exact P_bind |].
  intros [i ev] Hin. destruct (ui !! i) as [e|] eqn:Hi.
  - exact (Hel i e ev w0 Hi Hin).
  - apply P_ret.
Qed.

Lemma P_process_and_queue_render_menu (window : Window) (input_state : InputState) :
  (forall s ui i e ev pos keys bs en lmb w,
      map_find (game_state_to_ui wop is_valid avail nl cfg) s = Some ui ->
      ui !! i = Some e ->
      (i, ev) ∈ suite pos s keys bs en lmb w ->
      P unit (fire e ev)) ->
  P unit (process_and_queue_render_menu wop is_valid avail nl cfg
            window input_state suite).
Proof.
  intros Hel.
  apply (P_read unit
           (fun w0 =>
              for_each (uis_to_render (curr_state w0))
                (process_ui_state wop is_valid avail nl cfg
                   (acnmp_of window input_state) input_state suite))).
  intros w0. apply P_for_each; [exact P_ret | exact P_bind |].
  intros s _. unfold process_ui_state.
  destruct (map_find (game_state_to_ui wop is_valid avail nl cfg) s) as [ui|] eqn:Hfind.
  - apply P_process_and_queue_render_ui.
    intros i e ev w Hi Hin. exact (Hel s ui i e ev _ _ _ _ _ w Hfind Hi Hin).
  - apply P_ret.
Qed.

End ClosuresFrame.

(** ** The two kinds of predicate: returning, and respecting a relation *)




Lemma returns_ext A (m m' : M A) :
  (forall w, m w = m' w) -> returns m -> returns m'.
Proof. intros Heq Hm w. unfold result. rewrite <- Heq. apply Hm. Qed.





Lemma respects_read (R : World -> World -> Prop) A (f : World -> M A) :
  (forall w0, respects R (f w0)) -> respects R (fun w => f w w).
Proof. intros Hf w. exact (Hf w w). Qed.

Lemma respects_ext (R : World -> World -> Prop) A (m m' : M A) :
  (forall w, m w = m' w) -> respects R m -> respects R m'.
Proof. intros Heq Hm w. unfold after. rewrite <- Heq. apply Hm. Qed.

Lemma never_settings_menu_refl w : never_settings_menu w w.
Proof. intros H. exact H. Qed.
Lemma never_settings_menu_trans w1 w2 w3 :
  never_settings_menu w1 w2 -> never_settings_menu w2 w3 ->
  never_settings_menu w1 w3.
Proof. unfold never_settings_menu. auto. Qed.

Lemma same_configuration_refl w : same_configuration w w.
Proof. reflexivity. Qed.
Lemma same_configuration_trans w1 w2 w3 :
  same_configuration w1 w2 -> same_configuration w2 w3 ->
  same_configuration w1 w3.
Proof. unfold same_configuration. congruence. Qed.

Lemma writes_only_sections_refl sections w : writes_only_sections sections w w.
Proof. intros section key _. reflexivity. Qed.
Lemma writes_only_sections_trans sections w1 w2 w3 :
  writes_only_sections sections w1 w2 -> writes_only_sections sections w2 w3 ->
  writes_only_sections sections w1 w3.
Proof.
  intros H12 H23 section key Hout.
  rewrite (H23 section key Hout). apply H12, Hout.
Qed.
Lemma writes_only_sections_set_value sections s k v w :
  s ∈ sections -> writes_only_sections sections w (after (set_value s k v) w).
Proof.
  intros Hs section key Hout. simpl.
  apply lookup_insert_ne. intros Heq. injection Heq as -> _. exact (Hout Hs).
Qed.
Lemma same_configuration_writes_only sections w w' :
  same_configuration w w' -> writes_only_sections sections w w'.
Proof. intros H section key _. rewrite H. reflexivity. Qed.



Section RespectsGuarded.

Variable R : World -> World -> Prop.
Variable section_ok : string -> Prop.
Hypothesis R_refl : forall w, R w w.
Hypothesis R_trans : forall w1 w2 w3, R w1 w2 -> R w2 w3 -> R w1 w3.
Hypothesis R_call : forall c w, R w (after (call c) w).
Hypothesis R_curr_state :
  forall s w, s <> SETTINGS_MENU -> R w (after (set_curr_state s) w).
Hypothesis R_set_value :
  forall s k v w, section_ok s -> R w (after (set_value s k v) w).
Hypothesis R_disable : forall w, R w (after (set_enabled false) w).

Lemma guarded_registry wop is_valid avail nl cfg
    (s : UIState) (ui : UI) (i : nat) (e : Element) (ev : UIEvent) :
  section_ok "input" -> section_ok "graphics" ->
  map_find (game_state_to_ui wop is_valid avail nl cfg) s = Some ui ->
  ui !! i = Some e ->
  respects R (fire e ev).
Proof.
  apply (P_registry (fun A => @respects A R) section_ok
           (fun A a => respects_ret R R_refl a)
           (fun A B m k => respects_bind R R_trans m k)
           (respects_read R) (respects_ext R)
           (fun c _ w => R_call c w)
           (fun s' Hs w => R_curr_state s' w Hs)
           (fun s' k v Hs w => R_set_value s' k v w Hs)
           R_disable
           (fun e' w => R_refl w)
           (fun A o w => R_refl w)).
Qed.

Lemma guarded_apply_config_logic (wop : Call -> outcome unit) :
  respects R (apply_config_logic wop).
Proof.
  apply (P_apply_config_logic (fun A => @respects A R)
           (fun A a => respects_ret R R_refl a)
           (fun A B m k => respects_bind R R_trans m k)
           (respects_read R) (respects_ext R)
           (fun c _ w => R_call c w)
           (fun A o w => R_refl w)).
Qed.

Lemma guarded_frame wop is_valid avail nl cfg window input_state suite :
  section_ok "input" -> section_ok "graphics" ->
  respects R (process_and_queue_render_menu wop is_valid avail nl cfg
                window input_state suite).
Proof.
  intros Hinput Hgraphics.
  apply (P_process_and_queue_render_menu (fun A => @respects A R)
           (fun A a => respects_ret R R_refl a)
           (fun A B m k => respects_bind R R_trans m k)
           (respects_read R)
           (fun c _ w => R_call c w)).
  intros s ui i e ev pos keys bs en lmb w Hfind Hi _.
  exact (guarded_registry wop is_valid avail nl cfg s ui i e ev
           Hinput Hgraphics Hfind Hi).
Qed.

End RespectsGuarded.

(** ** Which closures can throw *)

Lemma for_each_throws {A} (l : list A) (body : A -> M unit) (x : A) :
  x ∈ l ->
  (forall w, exists e, result (body x) w = thrown e) ->
  forall w, exists e, result (for_each l body) w = thrown e.
Proof.
  intros Hin Hx. induction l as [|y l IH]; intros w.
  - apply elem_of_nil in Hin. destruct Hin.
  - simpl. rewrite result_bind.
    destruct (result (body y) w) as [[]|e] eqn:Hy; [|exists e; reflexivity].
    apply elem_of_cons in Hin as [->|Hin].
    + destruct (Hx w) as [e He]. rewrite He in Hy. discriminate Hy.
    + apply IH, Hin.
Qed.



(** X2.  When the render suite confirms, in the resolution dropdown, a
    string without an 'x' while the graphics screen is active, the frame
    ends in a throw right after the graphics screen: the settings menu
    behind it is not handed to the render suite in that frame. *)
Theorem malformed_resolution_ends_frame
    (wop : Call -> outcome unit)
    (is_valid : string -> bool) (avail : string -> list string)
    (nl : string -> string) (cfg : gmap (string * string) string)
    (window : Window) (input_state : InputState) (suite : IUIRenderSuite)
    (option : string) (w : World) :
  curr_state w = GRAPHICS_SETTINGS ->
  find "x" option = None ->
  (forall pos keys backspace enter lmb w',
      (1%nat, dropdown_click option)
        ∈ suite pos GRAPHICS_SETTINGS keys backspace enter lmb w') ->
  let frame := process_and_queue_render_menu wop is_valid avail nl cfg
                 window input_state suite in
  (exists e, result frame w = thrown e) /\
  processed (calls (after frame w)) = processed (calls w) ++ [GRAPHICS_SETTINGS].
Proof.
  intros Hstate Hfind Hsuite frame.
  set (pos := acnmp_of window input_state).
  set (keys := get_keys_just_pressed_this_tick input_state).
  set (bs := is_just_pressed input_state BACKSPACE).
  set (en := is_just_pressed input_state ENTER).
  set (lmb := is_just_pressed input_state LEFT_MOUSE_BUTTON).
  set (ui := create_graphics_settings_ui avail cfg).
  set (one := process_and_queue_render_ui pos GRAPHICS_SETTINGS ui suite
                keys bs en lmb).
  assert (Hframe : frame w =
                   bind one
                     (fun _ => for_each [SETTINGS_MENU]
                                 (process_ui_state wop is_valid avail nl cfg pos
                                    input_state suite)) w).
  { unfold frame, process_and_queue_render_menu. rewrite Hstate. reflexivity. }
  assert (Hthrow : exists e, result one w = thrown e).
  { unfold one, process_and_queue_render_ui. rewrite result_bind.
    change (result (call (process_and_queue_render_ui_call pos GRAPHICS_SETTINGS
                            keys bs en lmb)) w) with (returned tt).
    cbv beta iota.
    match goal with
    | |- exists e, result (fun w0 => for_each (suite _ _ _ _ _ _ w0) ?body w0) ?w1 = _ =>
        change (exists e,
                   result (for_each (suite pos GRAPHICS_SETTINGS keys bs en lmb w1)
                             body) w1 = thrown e);
        apply (for_each_throws _ body (1%nat, dropdown_click option));
        [apply Hsuite|]
    end.
    intros w0. cbn.
    exists (invalid_argument
              "Input string is not in the correct format (e.g. 1280x960)").
    unfold resolution_dropdown_on_click. rewrite result_bind, Hfind. reflexivity. }
  destruct Hthrow as [e He]. split.
  - exists e. unfold result in *. rewrite Hframe. unfold bind.
    destruct (one w) as [[[]|e'] w']; simpl in He; [discriminate He|].
    simpl. congruence.
  - unfold processed. unfold after. rewrite Hframe.
    change (snd (bind one ?k w)) with (after (bind one k) w).
    rewrite after_bind, He.
    unfold one.
    rewrite (render_calls_process_and_queue_render_ui wop is_valid avail nl cfg suite
               keys bs en lmb pos GRAPHICS_SETTINGS ui w eq_refl).
    rewrite map_app. reflexivity.
Qed.

Lemma malformed_resolution_ends_frame_witness :
  (exists e, result (sample_frame malformed_suite) (world_at GRAPHICS_SETTINGS)
             = thrown e) /\
  processed (calls (after (sample_frame malformed_suite)
                      (world_at GRAPHICS_SETTINGS))) = [GRAPHICS_SETTINGS].
Proof.
  apply (malformed_resolution_ends_frame sample_window_operation
      sample_is_valid_key_string
           sample_resolutions sample_add_newlines empty_cfg window_1920x1080
           (pointer_at 0 0) malformed_suite "1280960"
           (world_at GRAPHICS_SETTINGS)).
  - reflexivity.
  - reflexivity.
  - intros pos keys backspace enter lmb w'. left.
Defined.

(** ** The states the menu can be in *)

Lemma never_settings_menu_registry wop is_valid avail nl cfg
    (s : UIState) (ui : UI) (i : nat) (e : Element) (ev : UIEvent) :
  map_find (game_state_to_ui wop is_valid avail nl cfg) s = Some ui ->
  ui !! i = Some e ->
  respects never_settings_menu (fire e ev).
Proof.
  apply (guarded_registry never_settings_menu (fun _ => True)
           never_settings_menu_refl never_settings_menu_trans
           (fun c w H => H)
           (fun s' w Hs _ => Hs)
           (fun s' k v w _ H => H)
           (fun w H => H)
           wop is_valid avail nl cfg s ui i e ev I I).
Qed.

(** X3.  No closure and no frame makes SETTINGS_MENU the active state: if
    [curr_state] is not SETTINGS_MENU before, it is not after.  As the menu
    starts in MAIN_MENU, SETTINGS_MENU is never active after any sequence of
    events on visible screens; its screen is only ever drawn as the
    dependency of a sub-settings state. *)
Theorem settings_menu_never_active
    (wop : Call -> outcome unit)
    (is_valid : string -> bool) (avail : string -> list string)
    (nl : string -> string) (cfg : gmap (string * string) string) :
  (forall s ui i e ev w,
      map_find (game_state_to_ui wop is_valid avail nl cfg) s = Some ui ->
      ui !! i = Some e ->
      curr_state w <> SETTINGS_MENU ->
      curr_state (after (fire e ev) w) <> SETTINGS_MENU) /\
  (forall window input_state suite w,
      curr_state w <> SETTINGS_MENU ->
      curr_state (after (process_and_queue_render_menu wop is_valid avail nl cfg
                           window input_state suite) w) <> SETTINGS_MENU) /\
  (forall w',
      rtc (event_step (game_state_to_ui wop is_valid avail nl cfg))
          (snd (construct wop cfg)) w' ->
      curr_state w' <> SETTINGS_MENU).
Proof.
  split; [|split].
  - intros s ui i e ev w Hfind Hi.
    exact (never_settings_menu_registry wop is_valid avail nl cfg s ui i e ev
             Hfind Hi w).
  - intros window input_state suite w.
    exact (guarded_frame never_settings_menu (fun _ => True)
             never_settings_menu_refl never_settings_menu_trans
             (fun c w H => H)
             (fun s' w Hs _ => Hs)
             (fun s' k v w _ H => H)
             (fun w H => H)
             wop is_valid avail nl cfg window input_state suite I I w).
  - apply (rtc_ind_r (fun w => curr_state w <> SETTINGS_MENU)).
    + destruct (construct_fields wop cfg) as [-> _]. discriminate.
    + intros w1 w2 _ (s & ui & i & e & ev & _ & Hfind & Hi & ->) IH.
      exact (never_settings_menu_registry wop is_valid avail nl cfg s ui i e ev
               Hfind Hi w1 IH).
Qed.

Lemma settings_menu_never_active_witness :
  curr_state (after (sample_frame busy_suite) (world_at MAIN_MENU)) <> SETTINGS_MENU.
Proof.
  destruct (settings_menu_never_active sample_window_operation
      sample_is_valid_key_string
              sample_resolutions sample_add_newlines empty_cfg)
    as (_ & Hframe & _).
  apply Hframe. discriminate.
Defined.

(** X4.  Every state but SETTINGS_MENU is reached from the constructed menu
    by events on visible screens, and from every state other than MAIN_MENU
    one click on a visible screen leads back to MAIN_MENU: the "BACK" button
    of the settings menu, drawn behind every sub-settings screen, or the
    button of the about screen. *)
Theorem navigation_reaches_every_screen_and_returns
    (wop : Call -> outcome unit)
    (is_valid : string -> bool) (avail : string -> list string)
    (nl : string -> string) (cfg : gmap (string * string) string) :
  let registry := game_state_to_ui wop is_valid avail nl cfg in
  (forall target,
      target <> SETTINGS_MENU ->
      exists w', rtc (event_step registry) (snd (construct wop cfg)) w' /\
                 curr_state w' = target) /\
  (forall w,
      curr_state w <> MAIN_MENU ->
      exists s ui i e,
        s ∈ uis_to_render (curr_state w) /\
        map_find registry s = Some ui /\
        ui !! i = Some e /\
        curr_state (after (fire e click) w) = MAIN_MENU).
Proof.
  cbv zeta. split.
  - intros target Htarget.
    set (w0 := snd (construct wop cfg)).
    assert (H0 : curr_state w0 = MAIN_MENU) by apply construct_fields.
    assert (Hmain : forall i e, create_main_menu_ui !! i = Some e ->
                    event_step (game_state_to_ui wop is_valid avail nl cfg) w0
                      (after (fire e click) w0)).
    { intros i e Hi. exists MAIN_MENU, create_main_menu_ui, i, e, click.
      rewrite H0. repeat split; [left | exact Hi]. }
    set (w1 := after (fire (clickable_textbox
                              (bind (queue_sound UI_CLICK)
                                 (fun _ => set_curr_state PROGRAM_SETTINGS))
                              on_hover "SETTINGS") click) w0).
    assert (H01 : event_step (game_state_to_ui wop is_valid avail nl cfg) w0 w1)
      by (apply (Hmain 2%nat); reflexivity).
    assert (Htab : forall i e, (create_settings_menu_ui wop) !! i = Some e ->
                   event_step (game_state_to_ui wop is_valid avail nl cfg) w1
                     (after (fire e click) w1)).
    { intros i e Hi. exists SETTINGS_MENU, (create_settings_menu_ui wop), i, e, click.
      repeat split; [right; left | exact Hi]. }
    destruct target; try (exfalso; apply Htarget; reflexivity).
    + exists w0. split; [apply rtc_refl | exact H0].
    + exists w1. split; [apply rtc_once, H01 | reflexivity].
    + eexists. split;
        [eapply rtc_l; [exact H01 | apply rtc_once, (Htab 1%nat); reflexivity]
        | reflexivity].
    + eexists. split;
        [eapply rtc_l; [exact H01 | apply rtc_once, (Htab 2%nat); reflexivity]
        | reflexivity].
    + eexists. split;
        [eapply rtc_l; [exact H01 | apply rtc_once, (Htab 3%nat); reflexivity]
        | reflexivity].
    + eexists. split;
        [eapply rtc_l; [exact H01 | apply rtc_once, (Htab 4%nat); reflexivity]
        | reflexivity].
    + eexists. split; [apply rtc_once, (Hmain 3%nat); reflexivity | reflexivity].
  - intros w Hw.
    destruct (curr_state w) eqn:Hstate; try (exfalso; apply Hw; reflexivity).
    + exists SETTINGS_MENU, (create_settings_menu_ui wop), 6%nat. eexists.
      split; [left | split; [reflexivity | split; reflexivity]].
    + exists SETTINGS_MENU, (create_settings_menu_ui wop), 6%nat. eexists.
      split; [right; left | split; [reflexivity | split; reflexivity]].
    + exists SETTINGS_MENU, (create_settings_menu_ui wop), 6%nat. eexists.
      split; [right; left | split; [reflexivity | split; reflexivity]].
    + exists SETTINGS_MENU, (create_settings_menu_ui wop), 6%nat. eexists.
      split; [right; left | split; [reflexivity | split; reflexivity]].
    + exists SETTINGS_MENU, (create_settings_menu_ui wop), 6%nat. eexists.
      split; [right; left | split; [reflexivity | split; reflexivity]].
    + exists SETTINGS_MENU, (create_settings_menu_ui wop), 6%nat. eexists.
      split; [right; left | split; [reflexivity | split; reflexivity]].
    + exists ABOUT, (create_about_ui nl), 1%nat. eexists.
      split; [left | split; [reflexivity | split; reflexivity]].
Qed.

Lemma navigation_reaches_every_screen_and_returns_witness :
  (exists w',
      rtc (event_step (game_state_to_ui sample_window_operation
          sample_is_valid_key_string
                         sample_resolutions sample_add_newlines empty_cfg))
          (snd (construct sample_window_operation empty_cfg)) w' /\
      curr_state w' = GRAPHICS_SETTINGS) /\
  (exists s ui i e,
      s ∈ uis_to_render (curr_state (world_at GRAPHICS_SETTINGS)) /\
      map_find (game_state_to_ui sample_window_operation sample_is_valid_key_string
                  sample_resolutions sample_add_newlines empty_cfg) s = Some ui /\
      ui !! i = Some e /\
      curr_state (after (fire e click) (world_at GRAPHICS_SETTINGS)) = MAIN_MENU).
Proof.
  destruct (navigation_reaches_every_screen_and_returns sample_window_operation
      sample_is_valid_key_string
              sample_resolutions sample_add_newlines empty_cfg)
    as (Hreach & Hback).
  split.
  - apply Hreach. discriminate.
  - apply Hback. discriminate.
Defined.

(** ** What writes to the configuration *)

Lemma same_configuration_closures wop is_valid avail nl cfg
    (s : UIState) (ui : UI) :
  s <> INPUT_SETTINGS -> s <> GRAPHICS_SETTINGS ->
  map_find (game_state_to_ui wop is_valid avail nl cfg) s = Some ui ->
  Forall (fun e => forall ev, respects same_configuration (fire e ev)) ui.
Proof.
  intros Hinput Hgraphics Hfind.
  pose (Q := fun A : Type => @respects A same_configuration).
  assert (Hret : forall A (a : A), Q A (ret a))
    by (intros A a w; reflexivity).
  assert (Hbind : forall A B (m : M A) (k : A -> M B),
             Q A m -> (forall a, Q B (k a)) -> Q B (bind m k))
    by (intros A B m k; apply respects_bind, same_configuration_trans).
  assert (Hcall : forall c, is_render_call c = false -> Q unit (call c))
    by (intros c _ w; reflexivity).
  assert (Hcurr : forall s', s' <> SETTINGS_MENU -> Q unit (set_curr_state s'))
    by (intros s' _ w; reflexivity).
  destruct s; try (exfalso; auto; fail); injection Hfind as <-.
  - apply (P_main_menu_ui Q Hret Hbind Hcall Hcurr). intros w. reflexivity.
  - apply (P_settings_menu_ui Q Hret Hbind (respects_read same_configuration)
             (respects_ext same_configuration) Hcall Hcurr
             (fun A o w => eq_refl)).
  - apply (P_player_settings_ui Q Hret Hcall).
  - apply (P_sound_settings_ui Q Hret).
  - apply (P_advanced_settings_ui Q Hret).
  - apply (P_about_ui Q Hret Hcall Hcurr).
Qed.

Lemma writes_only_sections_input (is_valid : string -> bool) cfg :
  Forall (fun e => forall ev, respects (writes_only_sections ["input"]) (fire e ev))
    (create_input_settings_ui is_valid cfg).
Proof.
  pose (R := writes_only_sections ["input"]).
  apply (P_input_settings_ui (fun A => @respects A R) (fun s => s = "input")).
  - intros A a w. apply writes_only_sections_refl.
  - intros A B m k. apply respects_bind, writes_only_sections_trans.
  - intros c _ w. apply same_configuration_writes_only. reflexivity.
  - intros s k v -> w. apply writes_only_sections_set_value. left.
  - reflexivity.
Qed.

Lemma writes_only_sections_graphics (avail : string -> list string) cfg :
  Forall (fun e => forall ev, respects (writes_only_sections ["graphics"]) (fire e ev))
    (create_graphics_settings_ui avail cfg).
Proof.
  pose (R := writes_only_sections ["graphics"]).
  apply (P_graphics_settings_ui (fun A => @respects A R) (fun s => s = "graphics")).
  - intros A a w. apply writes_only_sections_refl.
  - intros A B m k. apply respects_bind, writes_only_sections_trans.
  - intros c _ w. apply same_configuration_writes_only. reflexivity.
  - intros s _ w. apply same_configuration_writes_only. reflexivity.
  - intros s k v -> w. apply writes_only_sections_set_value. left.
  - intros e w. apply writes_only_sections_refl.
  - intros A o w. apply writes_only_sections_refl.
  - reflexivity.
Qed.

(** X5.  The configuration is written only by closures of the input and
    graphics screens, each within its own section: every closure of the six
    other screens, [apply_config_logic] and the constructor leave the store
    as it is; a closure of the input screen changes no key outside section
    "input", a closure of the graphics screen none outside "graphics"; a
    frame changes no key outside these two sections. *)
Theorem configuration_written_only_by_settings_screens
    (wop : Call -> outcome unit)
    (is_valid : string -> bool) (avail : string -> list string)
    (nl : string -> string) (cfg : gmap (string * string) string) :
  (forall s ui i e ev w,
      map_find (game_state_to_ui wop is_valid avail nl cfg) s = Some ui ->
      ui !! i = Some e ->
      s <> INPUT_SETTINGS -> s <> GRAPHICS_SETTINGS ->
      configuration (after (fire e ev) w) = configuration w) /\
  (forall i e ev w section key,
      create_input_settings_ui is_valid cfg !! i = Some e ->
      section <> "input" ->
      configuration (after (fire e ev) w) !! (section, key) =
      configuration w !! (section, key)) /\
  (forall i e ev w section key,
      create_graphics_settings_ui avail cfg !! i = Some e ->
      section <> "graphics" ->
      configuration (after (fire e ev) w) !! (section, key) =
      configuration w !! (section, key)) /\
  (forall w, configuration (after (apply_config_logic wop) w) = configuration w) /\
  configuration (snd (construct wop cfg)) = cfg /\
  (forall window input_state suite w section key,
      section <> "input" -> section <> "graphics" ->
      configuration (after (process_and_queue_render_menu wop is_valid avail nl cfg
                              window input_state suite) w) !! (section, key) =
      configuration w !! (section, key)).
Proof.
  assert (Happly : respects same_configuration (apply_config_logic wop)).
  { apply respects_apply_config_logic;
      [exact same_configuration_refl | exact same_configuration_trans |].
    intros c w _. reflexivity. }
  split; [|split; [|split; [|split; [exact Happly | split]]]].
  - intros s ui i e ev w Hfind Hi Hinput Hgraphics.
    pose proof (same_configuration_closures wop is_valid avail nl cfg s ui
                  Hinput Hgraphics Hfind) as Hall.
    rewrite Forall_lookup in Hall. exact (Hall i e Hi ev w).
  - intros i e ev w section key Hi Hsection.
    pose proof (writes_only_sections_input is_valid cfg) as Hall.
    rewrite Forall_lookup in Hall. apply (Hall i e Hi ev w).
    intros Hin. apply list_elem_of_singleton in Hin. exact (Hsection Hin).
  - intros i e ev w section key Hi Hsection.
    pose proof (writes_only_sections_graphics avail cfg) as Hall.
    rewrite Forall_lookup in Hall. apply (Hall i e Hi ev w).
    intros Hin. apply list_elem_of_singleton in Hin. exact (Hsection Hin).
  - unfold construct.
    assert (H : respects same_configuration
                  (bind (apply_config_logic wop)
                     (fun _ => call (logger_info "successfully initialized")))).
    { apply respects_bind; [exact same_configuration_trans | exact Happly |].
      intros _ w. reflexivity. }
    exact (H {| enabled := true; curr_state := MAIN_MENU;
                configuration := cfg; calls := [] |}).
  - intros window input_state suite w section key Hinput Hgraphics.
    apply (guarded_frame (writes_only_sections ["input"; "graphics"])
             (fun s => s ∈ ["input"; "graphics"])
             (writes_only_sections_refl _) (writes_only_sections_trans _)
             (fun c w' => same_configuration_writes_only _ _ _ eq_refl)
             (fun s' w' _ => same_configuration_writes_only _ _ _ eq_refl)
             (fun s' k v w' Hs => writes_only_sections_set_value _ s' k v w' Hs)
             (fun w' => same_configuration_writes_only _ _ _ eq_refl)
             wop is_valid avail nl cfg window input_state suite).
    + left.
    + right. left.
    + intros Hin. apply elem_of_cons in Hin as [Hin|Hin]; [exact (Hinput Hin)|].
      apply list_elem_of_singleton in Hin. exact (Hgraphics Hin).
Qed.

Lemma configuration_written_only_by_settings_screens_witness :
  configuration (after (sample_frame busy_suite) (world_at MAIN_MENU))
    !! ("sound", "volume") = None.
Proof.
  destruct (configuration_written_only_by_settings_screens
              sample_window_operation sample_is_valid_key_string sample_resolutions
              sample_add_newlines empty_cfg)
    as (_ & _ & _ & _ & _ & Hframe).
  unfold sample_frame. rewrite Hframe; [reflexivity | discriminate | discriminate].
Defined.

(** ** Strings the resolution closure takes and refuses *)

Lemma find_append_none (c : ascii) (s rest : string) :
  find c s = None ->
  find c (s ++ String c rest)%string = Some (String.length s).
Proof.
  induction s as [|a s IH]; simpl; intros Hnone.
  - rewrite Ascii.eqb_refl. reflexivity.
  - destruct (Ascii.eqb a c); [discriminate Hnone|].
    destruct (find c s); [discriminate Hnone|].
    rewrite (IH eq_refl). reflexivity.
Qed.

Lemma digit_is_not_separator (a : ascii) :
  is_digit a = true -> Ascii.eqb a "x" = false.
Proof.
  intros Hdigit. destruct (Ascii.eqb_spec a "x") as [->|_]; [|reflexivity].
  vm_compute in Hdigit. discriminate Hdigit.
Qed.

Lemma all_digits_no_separator (s : string) :
  all_digits s = true -> find "x" s = None.
Proof.
  induction s as [|a s IH]; simpl; intros Hall; [reflexivity|].
  apply andb_prop in Hall as [Ha Hs].
  rewrite (digit_is_not_separator a Ha), (IH Hs). reflexivity.
Qed.

Lemma substring_whole (s : string) :
  String.substring 0 (String.length s) s = s.
Proof. induction s as [|a s IH]; simpl; [reflexivity | rewrite IH; reflexivity]. Qed.

Lemma append_empty (s : string) : (s ++ EmptyString)%string = s.
Proof.
  induction s as [|a s IH]; [reflexivity|].
  change (String a (s ++ EmptyString)%string = String a s). f_equal. exact IH.
Qed.

Lemma substr_prefix (s rest : string) :
  substr (s ++ rest)%string 0 (String.length s) = s.
Proof.
  unfold substr. induction s as [|a s IH]; simpl.
  - destruct rest; reflexivity.
  - rewrite IH. reflexivity.
Qed.

Lemma substr_from_after (s rest : string) (c : ascii) :
  substr_from (s ++ String c rest)%string (String.length s + 1) = rest.
Proof.
  unfold substr_from. induction s as [|a s IH]; simpl.
  - rewrite Nat.sub_0_r. apply substring_whole.
  - exact IH.
Qed.

Lemma decimal_lower_bound (s : string) (acc : Z) :
  (0 <= acc)%Z -> (acc <= decimal acc s)%Z.
Proof.
  revert acc. induction s as [|a s IH]; simpl; intros acc Hacc; [lia|].
  unfold digit_value.
  destruct (Nat.leb 48 (nat_of_ascii a) && Nat.leb (nat_of_ascii a) 57)%bool eqn:Hd;
    [|lia].
  apply andb_prop in Hd as [Hlo _]. apply Nat.leb_le in Hlo.
  etransitivity; [|apply IH]; lia.
Qed.

Lemma digits_from_decimal (s rest : string) (acc : Z) (seen : bool) :
  all_digits s = true ->
  starts_with_digit rest = false ->
  seen = true \/ s <> EmptyString ->
  digits_from acc seen (s ++ rest)%string = Some (decimal acc s).
Proof.
  revert acc seen. induction s as [|a s IH]; simpl; intros acc seen Hall Hrest Hseen.
  - destruct Hseen as [->|Hne]; [|destruct Hne; reflexivity].
    destruct rest as [|b rest]; [reflexivity|].
    simpl in Hrest. unfold is_digit in Hrest. simpl.
    destruct (digit_value b); [discriminate Hrest | reflexivity].
  - apply andb_prop in Hall as [Ha Hs]. unfold is_digit in Ha.
    destruct (digit_value a) as [d|]; [|discriminate Ha].
    apply IH; [exact Hs | exact Hrest | left; reflexivity].
Qed.

(** [std::stoi] on a string that starts with a digit: no white space to
    skip, no sign. *)
Lemma stoi_starts_with_digit (a : ascii) (s : string) :
  is_digit a = true ->
  stoi (String a s) =
  match digits_from 0 false (String a s) with
  | None => thrown (invalid_argument "stoi")
  | Some n =>
      if ((INT_MIN <=? n)%Z && (n <=? INT_MAX)%Z)%bool then returned n
      else thrown (out_of_range "stoi")
  end.
Proof.
  intros Hdigit.
  destruct a as [[|] [|] [|] [|] [|] [|] [|] [|]];
    vm_compute in Hdigit; try discriminate Hdigit; reflexivity.
Qed.

Lemma stoi_decimal (s rest : string) :
  s <> EmptyString ->
  all_digits s = true ->
  starts_with_digit rest = false ->
  (decimal 0 s <= INT_MAX)%Z ->
  stoi (s ++ rest)%string = returned (decimal 0 s).
Proof.
  intros Hne Hall Hrest Hmax.
  destruct s as [|a s]; [destruct Hne; reflexivity|].
  pose proof Hall as Hall'. simpl in Hall'. apply andb_prop in Hall' as [Ha _].
  change (String a s ++ rest)%string with (String a (s ++ rest)%string).
  rewrite (stoi_starts_with_digit a (s ++ rest)%string Ha).
  change (String a (s ++ rest)%string) with (String a s ++ rest)%string.
  rewrite (digits_from_decimal (String a s) rest 0 false Hall Hrest);
    [|right; discriminate].
  pose proof (decimal_lower_bound (String a s) 0 ltac:(lia)) as Hlow.
  assert (Hmin : (INT_MIN <=? decimal 0 (String a s))%Z = true).
  { apply Z.leb_le. unfold INT_MIN. lia. }
  rewrite Hmin. apply Z.leb_le in Hmax. rewrite Hmax. reflexivity.
Qed.

(** X6.  A decimal number, an 'x' and a decimal number, both at most
    2147483647, make a string the resolution closure takes: it returns and
    stores the string verbatim under ("graphics","resolution").  So does
    such a string followed by any text that does not start with a digit:
    [std::stoi] stops reading at the first character that is not a digit,
    and the text is stored with the rest. *)
Theorem resolution_confirm_accepts_sizes (width height tail : string) (w : World) :
  width <> EmptyString -> all_digits width = true ->
  height <> EmptyString -> all_digits height = true ->
  starts_with_digit tail = false ->
  (decimal 0 width <= INT_MAX)%Z -> (decimal 0 height <= INT_MAX)%Z ->
  result (resolution_dropdown_on_click (width ++ "x" ++ height ++ tail)%string) w =
    returned tt /\
  configuration (after (resolution_dropdown_on_click
                          (width ++ "x" ++ height ++ tail)%string) w) =
    <[("graphics", "resolution") := (width ++ "x" ++ height ++ tail)%string]>
      (configuration w).
Proof.
  intros Hw Hwd Hh Hhd Htail Hwmax Hhmax.
  assert (Hfind : find "x" (width ++ String "x" (height ++ tail))%string =
                  Some (String.length width))
    by apply find_append_none, all_digits_no_separator, Hwd.
  assert (Hfirst : stoi (substr (width ++ String "x" (height ++ tail))%string 0
                           (String.length width)) = returned (decimal 0 width)).
  { rewrite substr_prefix.
    rewrite <- (append_empty width) at 1.
    apply stoi_decimal; [exact Hw | exact Hwd | reflexivity | exact Hwmax]. }
  assert (Hsecond : stoi (substr_from (width ++ String "x" (height ++ tail))%string
                            (String.length width + 1)) =
                    returned (decimal 0 height)).
  { rewrite substr_from_after.
    apply stoi_decimal; [exact Hh | exact Hhd | exact Htail | exact Hhmax]. }
  change (width ++ "x" ++ height ++ tail)%string
    with (width ++ String "x" (height ++ tail))%string.
  unfold resolution_dropdown_on_click, result, after, bind, queue_sound, call, lift.
  simpl. rewrite Hfind, Hfirst, Hsecond. split; reflexivity.
Qed.

Lemma resolution_confirm_accepts_sizes_witness :
  result (resolution_dropdown_on_click "2560x1440 (native)")
         (world_at GRAPHICS_SETTINGS) = returned tt /\
  configuration (after (resolution_dropdown_on_click "2560x1440 (native)")
                   (world_at GRAPHICS_SETTINGS))
    !! ("graphics", "resolution") = Some "2560x1440 (native)".
Proof.
  destruct (resolution_confirm_accepts_sizes "2560" "1440" " (native)"
              (world_at GRAPHICS_SETTINGS))
    as [Hret Hcfg]; try reflexivity; try discriminate.
  split; [exact Hret|].
  change ("2560" ++ "x" ++ "1440" ++ " (native)")%string
    with "2560x1440 (native)" in Hcfg.
  rewrite Hcfg. apply lookup_insert_eq.
Defined.

(** X7.  A string with nothing before its first 'x' is refused with
    [std::invalid_argument], and a string whose only 'x' is its last
    character is refused with an exception of [std::stoi]; in both cases
    nothing is stored. *)
Theorem resolution_confirm_refuses_missing_size (w : World) :
  (forall rest,
      result (resolution_dropdown_on_click (String "x" rest)) w =
        thrown (invalid_argument "stoi") /\
      configuration (after (resolution_dropdown_on_click (String "x" rest)) w) =
        configuration w) /\
  (forall width,
      find "x" width = None ->
      (exists e, result (resolution_dropdown_on_click (width ++ "x")%string) w = thrown e) /\
      configuration (after (resolution_dropdown_on_click (width ++ "x")%string) w) =
        configuration w).
Proof.
  split.
  - intros rest. split; reflexivity.
  - intros width Hnone.
    pose proof (find_append_none "x" width EmptyString Hnone) as Hfind.
    pose proof (substr_from_after width EmptyString "x") as Hafter.
    unfold resolution_dropdown_on_click, result, after, bind, queue_sound, call, lift.
    simpl. rewrite Hfind, Hafter.
    destruct (stoi (substr (width ++ "x")%string 0 (String.length width))).
    + split; [eexists|]; reflexivity.
    + split; [eexists|]; reflexivity.
Qed.

Lemma resolution_confirm_refuses_missing_size_witness :
  exists e,
    result (resolution_dropdown_on_click "1280x") (world_at GRAPHICS_SETTINGS) =
    thrown e.
Proof.
  destruct (resolution_confirm_refuses_missing_size (world_at GRAPHICS_SETTINGS))
    as [_ Hlast].
  destruct (Hlast "1280" eq_refl) as [Hthrown _]. exact Hthrown.
Defined.

(** ** Start indices and option lists *)

Lemma get_index_or_default_range (value : string) (vec : list string) :
  vec <> [] ->
  (0 <= get_index_or_default value vec < Z.of_nat (length vec))%Z.
Proof.
  intros Hne. unfold get_index_or_default.
  destruct (std_find value vec) as [i|] eqn:Hfind.
  - apply std_find_Some in Hfind as [Hi _].
    apply lookup_lt_Some in Hi. lia.
  - destruct vec; [destruct Hne; reflexivity|]. simpl. lia.
Qed.

Lemma resolution_options_nonempty (avail : string -> list string) :
  resolution_options avail <> [].
Proof. unfold resolution_options. destruct (avail "16:9"); discriminate. Qed.

(** X8.  Every dropdown of every screen is built with a start index that
    is a position of its option list: the list is never empty (the
    resolution list falls back to one entry) and the index is at least 0
    and below its length, whatever the configuration and the resolution
    query hold. *)
Theorem dropdown_start_index_in_range
    (wop : Call -> outcome unit)
    (is_valid : string -> bool) (avail : string -> list string)
    (nl : string -> string) (cfg : gmap (string * string) string)
    (s : UIState) (ui : UI) (i : nat)
    (on_click on_hover : M unit) (idx : Z) (options : list string)
    (dropdown_on_click dropdown_on_hover : string -> M unit) :
  map_find (game_state_to_ui wop is_valid avail nl cfg) s = Some ui ->
  ui !! i = Some (dropdown on_click on_hover idx options
                    dropdown_on_click dropdown_on_hover) ->
  (0 <= idx < Z.of_nat (length options))%Z.
Proof.
  intros Hfind Hi.
  assert (Hall : Forall (fun e => match e with
                                  | dropdown _ _ idx' options' _ _ =>
                                      (0 <= idx' < Z.of_nat (length options'))%Z
                                  | _ => True
                                  end) ui).
  { destruct s; injection Hfind as <-; repeat constructor;
      apply get_index_or_default_range;
      first [apply resolution_options_nonempty | discriminate]. }
  rewrite Forall_lookup in Hall. exact (Hall i _ Hi).
Qed.

Lemma dropdown_start_index_in_range_witness :
  (0 <= 1 < Z.of_nat (length ["on"; "off"]))%Z.
Proof.
  apply (dropdown_start_index_in_range sample_window_operation
      sample_is_valid_key_string no_resolutions
           sample_add_newlines empty_cfg GRAPHICS_SETTINGS
           (create_graphics_settings_ui no_resolutions empty_cfg) 3%nat
           (set_curr_state PROGRAM_SETTINGS) on_hover 1 ["on"; "off"]
           (fun option => bind (queue_sound UI_CLICK)
                            (fun _ => set_value "graphics" "fullscreen" option))
           dropdown_on_hover);
    reflexivity.
Defined.

Lemma get_index_or_default_lookup (vec : list string) (i : nat) (value : string) :
  NoDup vec -> vec !! i = Some value ->
  get_index_or_default value vec = Z.of_nat i.
Proof.
  intros Hnodup Hi. unfold get_index_or_default.
  destruct (std_find value vec) as [j|] eqn:Hfind.
  - apply std_find_Some in Hfind as [Hj _].
    f_equal. exact (NoDup_lookup vec j i value Hnodup Hj Hi).
  - apply std_find_None in Hfind. destruct Hfind.
    apply list_elem_of_lookup. exists i. exact Hi.
Qed.

Lemma resolution_returned_stores (option : string) (w : World) :
  result (resolution_dropdown_on_click option) w = returned tt ->
  configuration (after (resolution_dropdown_on_click option) w) =
  <[("graphics", "resolution") := option]> (configuration w).
Proof.
  unfold resolution_dropdown_on_click, result, after, bind, queue_sound, call, lift.
  simpl. destruct (find "x" option); [|discriminate].
  destruct (stoi _); [|discriminate]. destruct (stoi _); [|discriminate].
  reflexivity.
Qed.

(** X9.  What a dropdown stores, the next construction finds again.  After
    the confirm closure of the "fullscreen" or "wireframe" dropdown has run
    on its [i]-th option, a graphics screen built from the resulting
    configuration starts that dropdown on index [i]; the same holds for the
    "resolution" dropdown when its closure returns and the queried list has
    no duplicates. *)
Theorem dropdown_choice_survives_reconstruction
    (avail : string -> list string) (cfg : gmap (string * string) string)
    (i : nat) (option : string) (w : World) :
  let ui := create_graphics_settings_ui avail cfg in
  let rebuilt closure :=
    create_graphics_settings_ui avail (configuration (after (closure option) w)) in
  (forall closure,
      dropdown_on_click_of "fullscreen" ui = Some closure ->
      ["on"; "off"] !! i = Some option ->
      dropdown_index_of "fullscreen" (rebuilt closure) = Some (Z.of_nat i)) /\
  (forall closure,
      dropdown_on_click_of "wireframe" ui = Some closure ->
      ["on"; "off"] !! i = Some option ->
      dropdown_index_of "wireframe" (rebuilt closure) = Some (Z.of_nat i)) /\
  (forall closure,
      dropdown_on_click_of "resolution" ui = Some closure ->
      NoDup (resolution_options avail) ->
      resolution_options avail !! i = Some option ->
      result (closure option) w = returned tt ->
      dropdown_index_of "resolution" (rebuilt closure) = Some (Z.of_nat i)).
Proof.
  cbv zeta.
  assert (Honoff : NoDup ["on"; "off"]).
  { apply (bool_decide_unpack _). vm_compute. exact I. }
  split; [|split].
  - intros closure Hclosure Hi. injection Hclosure as <-.
    change (Some (get_index_or_default
                    (value_or (get_value
                                 (<[("graphics", "fullscreen") := option]>
                                    (configuration w))
                                 "graphics" "fullscreen") "off")
                    ["on"; "off"]) = Some (Z.of_nat i)).
    unfold get_value. rewrite lookup_insert_eq. simpl. f_equal.
    apply get_index_or_default_lookup; assumption.
  - intros closure Hclosure Hi. injection Hclosure as <-.
    change (Some (get_index_or_default
                    (value_or (get_value
                                 (<[("graphics", "wireframe") := option]>
                                    (configuration w))
                                 "graphics" "wireframe") "off")
                    ["on"; "off"]) = Some (Z.of_nat i)).
    unfold get_value. rewrite lookup_insert_eq. simpl. f_equal.
    apply get_index_or_default_lookup; assumption.
  - intros closure Hclosure Hnodup Hi Hret. injection Hclosure as <-.
    rewrite (resolution_returned_stores option w Hret).
    change (Some (get_index_or_default
                    (value_or (get_value
                                 (<[("graphics", "resolution") := option]>
                                    (configuration w))
                                 "graphics" "resolution") "1280x720")
                    (resolution_options avail)) = Some (Z.of_nat i)).
    unfold get_value. rewrite lookup_insert_eq. simpl. f_equal.
    apply get_index_or_default_lookup; assumption.
Qed.

Lemma dropdown_choice_survives_reconstruction_witness :
  dropdown_index_of "resolution"
    (create_graphics_settings_ui sample_resolutions
       (configuration (after (resolution_dropdown_on_click "2560x1440")
                         (world_at GRAPHICS_SETTINGS)))) = Some 2%Z.
Proof.
  destruct (dropdown_choice_survives_reconstruction sample_resolutions empty_cfg
              2%nat "2560x1440" (world_at GRAPHICS_SETTINGS))
    as (_ & _ & Hresolution).
  apply (Hresolution resolution_dropdown_on_click).
  - reflexivity.
  - apply (bool_decide_unpack _). vm_compute. exact I.
  - reflexivity.
  - reflexivity.
Defined.

(** ** Frames without interaction, and how many screens a frame draws *)

Lemma idle_for_each wop is_valid avail nl cfg window input_state suite
    (l : list UIState) (w : World) :
  (forall pos s keys backspace enter lmb w',
      suite pos s keys backspace enter lmb w' = []) ->
  for_each l (process_ui_state wop is_valid avail nl cfg
                (acnmp_of window input_state) input_state suite) w =
  (returned tt,
   {| enabled := enabled w; curr_state := curr_state w;
      configuration := configuration w;
      calls := calls w ++ map (render_call_of window input_state) l |}).
Proof.
  intros Hidle. revert w. induction l as [|s l IH]; intros w.
  - simpl. rewrite app_nil_r. destruct w; reflexivity.
  - destruct (map_find_total wop is_valid avail nl cfg s) as [ui Hfind].
    simpl. unfold bind.
    rewrite (process_ui_state_found wop is_valid avail nl cfg input_state suite
               (acnmp_of window input_state) s ui Hfind).
    unfold process_and_queue_render_ui, bind, call. rewrite Hidle. simpl.
    rewrite IH. simpl. rewrite <- app_assoc. reflexivity.
Qed.

(** X10.  A frame in which the render suite runs no closure only draws: it
    returns, leaves [enabled], [curr_state] and the configuration as they
    are, and adds to the calls exactly one call to the render suite for the
    active state and one for each of its dependencies, in that order, all
    with the same pointer position, keys and flags. *)
Theorem idle_frame_only_draws
    (wop : Call -> outcome unit)
    (is_valid : string -> bool) (avail : string -> list string)
    (nl : string -> string) (cfg : gmap (string * string) string)
    (window : Window) (input_state : InputState) (suite : IUIRenderSuite)
    (w : World) :
  (forall pos s keys backspace enter lmb w',
      suite pos s keys backspace enter lmb w' = []) ->
  process_and_queue_render_menu wop is_valid avail nl cfg window input_state suite w =
  (returned tt,
   {| enabled := enabled w; curr_state := curr_state w;
      configuration := configuration w;
      calls := calls w ++
               map (render_call_of window input_state)
                 (curr_state w :: get_ui_dependencies (curr_state w)) |}).
Proof.
  intros Hidle. rewrite <- uis_to_render_eq.
  exact (idle_for_each wop is_valid avail nl cfg window input_state suite
           (uis_to_render (curr_state w)) w Hidle).
Qed.

Lemma idle_frame_only_draws_witness :
  calls (after (sample_frame idle_suite) (world_at INPUT_SETTINGS)) =
  [render_call_of window_1920x1080 (pointer_at 0 0) INPUT_SETTINGS;
   render_call_of window_1920x1080 (pointer_at 0 0) SETTINGS_MENU].
Proof.
  unfold sample_frame, after.
  rewrite (idle_frame_only_draws sample_window_operation
      sample_is_valid_key_string sample_resolutions
             sample_add_newlines empty_cfg window_1920x1080 (pointer_at 0 0)
             idle_suite (world_at INPUT_SETTINGS));
    [reflexivity|].
  intros pos s keys backspace enter lmb w'. reflexivity.
Defined.

(** X11.  Whatever the render suite does, a frame hands it at least one
    screen and at most two, the first being the screen of the state that
    was active when the frame started; for MAIN_MENU, SETTINGS_MENU and
    ABOUT it is exactly that one screen, even when a closure throws or
    changes [curr_state] during the frame. *)
Theorem frame_draws_one_or_two_screens
    (wop : Call -> outcome unit)
    (is_valid : string -> bool) (avail : string -> list string)
    (nl : string -> string) (cfg : gmap (string * string) string)
    (window : Window) (input_state : InputState) (suite : IUIRenderSuite)
    (w : World) :
  exists done : list UIState,
    processed (calls (after (process_and_queue_render_menu wop is_valid avail nl cfg
                               window input_state suite) w)) =
      processed (calls w) ++ done /\
    head done = Some (curr_state w) /\
    (1 <= length done <= 2)%nat /\
    (curr_state w ∈ [MAIN_MENU; SETTINGS_MENU; ABOUT] -> done = [curr_state w]).
Proof.
  destruct (frame_processed wop is_valid avail nl cfg window input_state suite w)
    as (done & Hcalls & Hpre & Hhead & _).
  exists done. split; [exact Hcalls|]. split; [exact Hhead|].
  destruct done as [|s done]; [discriminate Hhead|].
  injection Hhead as ->.
  apply prefix_cons_inv_2 in Hpre. apply prefix_length in Hpre.
  split.
  - simpl. destruct (curr_state w); simpl in Hpre; lia.
  - intros Htop. f_equal.
    assert (Hdeps : get_ui_dependencies (curr_state w) = []).
    { destruct (curr_state w); try reflexivity; exfalso;
        repeat (apply elem_of_cons in Htop as [Htop|Htop]; [discriminate Htop|]);
        apply elem_of_nil in Htop; exact Htop. }
    rewrite Hdeps in Hpre. destruct done; [reflexivity | simpl in Hpre; lia].
Qed.

Lemma frame_draws_one_or_two_screens_witness :
  processed (calls (after (sample_frame busy_suite) (world_at MAIN_MENU))) =
    [MAIN_MENU] /\
  curr_state (after (sample_frame busy_suite) (world_at MAIN_MENU)) =
    PROGRAM_SETTINGS.
Proof.
  destruct (frame_draws_one_or_two_screens sample_window_operation
      sample_is_valid_key_string
              sample_resolutions sample_add_newlines empty_cfg window_1920x1080
              (pointer_at 0 0) busy_suite (world_at MAIN_MENU))
    as (done & Hcalls & _ & _ & Htop).
  split; [|reflexivity].
  unfold sample_frame. rewrite Hcalls, Htop; [reflexivity | left].
Defined.

(** ** Hovering *)

(** X12.  Hovering never changes the menu: on every element of every
    screen, the closure run by a hover event (on the element or on one of
    the options of a dropdown) returns and either does nothing or queues
    the one sound UI_HOVER; [enabled], [curr_state] and the configuration
    are as before. *)
Theorem hover_only_queues_a_sound
    (wop : Call -> outcome unit)
    (is_valid : string -> bool) (avail : string -> list string)
    (nl : string -> string) (cfg : gmap (string * string) string)
    (s : UIState) (ui : UI) (i : nat) (e : Element) (ev : UIEvent) (w : World) :
  map_find (game_state_to_ui wop is_valid avail nl cfg) s = Some ui ->
  ui !! i = Some e ->
  (ev = hover \/ exists option, ev = dropdown_hover option) ->
  fire e ev w = (returned tt, w) \/
  fire e ev w =
    (returned tt,
     {| enabled := enabled w; curr_state := curr_state w;
        configuration := configuration w;
        calls := calls w ++ [queue_sound_call UI_HOVER] |}).
Proof.
  intros Hfind Hi Hev.
  assert (Hall : Forall (fun e' =>
                    forall ev', (ev' = hover \/ exists option, ev' = dropdown_hover option) ->
                    fire e' ev' w = (returned tt, w) \/
                    fire e' ev' w =
                      (returned tt,
                       {| enabled := enabled w; curr_state := curr_state w;
                          configuration := configuration w;
                          calls := calls w ++ [queue_sound_call UI_HOVER] |})) ui).
  { destruct s; injection Hfind as <-;
      repeat (apply List.Forall_cons;
              [intros ev' [->|[option ->]]; cbn [fire];
               first [left; reflexivity | right; reflexivity]|]);
      apply List.Forall_nil. }
  rewrite Forall_lookup in Hall. exact (Hall i e Hi ev Hev).
Qed.

Lemma hover_only_queues_a_sound_witness :
  fire (clickable_textbox
          (bind (queue_sound UI_CLICK) (fun _ => set_enabled false))
          on_hover "RESUME") hover (world_at MAIN_MENU) =
    (returned tt, world_at MAIN_MENU) \/
  fire (clickable_textbox
          (bind (queue_sound UI_CLICK) (fun _ => set_enabled false))
          on_hover "RESUME") hover (world_at MAIN_MENU) =
    (returned tt,
     {| enabled := true; curr_state := MAIN_MENU; configuration := empty_cfg;
        calls := [queue_sound_call UI_HOVER] |}).
Proof.
  apply (hover_only_queues_a_sound sample_window_operation
      sample_is_valid_key_string sample_resolutions
           sample_add_newlines empty_cfg MAIN_MENU create_main_menu_ui 1%nat
           _ hover (world_at MAIN_MENU)).
  - reflexivity.
  - reflexivity.
  - left. reflexivity.
Defined.

(** ** Sequences of key bindings *)

(** X13.  Key-binding confirms compose as writes to independent keys: two
    valid confirms for different keys give the same configuration in either
    order; of two valid confirms for the same key the later one wins; and a
    rejected string leaves the binding stored before it in place. *)
Theorem key_binding_confirms_compose (is_valid : string -> bool)
    (k1 k2 v1 v2 rejected : string) (w : World) :
  let confirm := create_key_on_confirm_function is_valid in
  is_valid v1 = true -> is_valid v2 = true -> is_valid rejected = false ->
  (k1 <> k2 ->
   configuration (after (confirm k2 v2) (after (confirm k1 v1) w)) =
   configuration (after (confirm k1 v1) (after (confirm k2 v2) w))) /\
  configuration (after (confirm k1 v2) (after (confirm k1 v1) w)) =
    configuration (after (confirm k1 v2) w) /\
  configuration (after (confirm k1 rejected) (after (confirm k1 v1) w))
    !! ("input", k1) = Some v1.
Proof.
  cbv zeta. intros Hv1 Hv2 Hrejected.
  unfold create_key_on_confirm_function, after.
  rewrite Hv1, Hv2, Hrejected. simpl. split; [|split].
  - intros Hne. apply insert_insert_ne. congruence.
  - apply insert_insert_eq.
  - apply lookup_insert_eq.
Qed.

Lemma key_binding_confirms_compose_witness :
  configuration
    (after (create_key_on_confirm_function sample_is_valid_key_string "forward" "zz")
       (after (create_key_on_confirm_function sample_is_valid_key_string "forward" "w")
          (world_at INPUT_SETTINGS)))
    !! ("input", "forward") = Some "w".
Proof.
  destruct (key_binding_confirms_compose sample_is_valid_key_string
              "forward" "back" "w" "s" "zz" (world_at INPUT_SETTINGS)
              eq_refl eq_refl eq_refl)
    as (_ & _ & Hkept).
  exact Hkept.
Defined.

(** ** What changes the window *)












